(** * Lie subalgebras of finite dimensional Lie algebras with basis

    A shallow embedding of [sage/algebras/lie_algebras/subalgebra.py]
    (class [LieSubalgebra_finite_dimensional_with_basis] and its nested
    [Element] class), followed by the properties of the closure
    computation, the retraction, the ideal test and the element
    accessors.

    The Python code is glue over two services that live outside of the
    file: the free modules of Sage ([submodule], [dimension], [basis],
    [coordinate_vector], ...) and the ambient Lie algebra ([bracket],
    [to_vector], [from_vector]).  Both are records of operations here, so
    that the code of the subalgebra is written once; two instances are
    given, row spaces over an arbitrary field (MathComp's [mxalgebra]) and
    lattices of integer vectors in Hermite normal form (executable). *)

From Stdlib Require Import ZArith String.
From mathcomp Require Import boot algebra.

Set Implicit Arguments.
Unset Strict Implicit.
Unset Printing Implicit Defensive.

(** ** Outcomes of a Python call

    A call returns a value, raises an exception, or (for the saturation
    loop, which is a [while] in the source) exhausts the iteration budget
    of the model. *)

Inductive outcome (E A : Type) : Type :=
| Ok (a : A)
| Raise (e : E)
| OutOfFuel.

Arguments Ok {E A} a.
Arguments Raise {E A} e.
Arguments OutOfFuel {E A}.

Definition bind {E A B : Type} (c : outcome E A) (k : A -> outcome E B) :
  outcome E B :=
  match c with
  | Ok a => k a
  | Raise e => Raise e
  | OutOfFuel => OutOfFuel
  end.

Notation "x <- c ;; k" := (bind c (fun x => k))
  (at level 100, c at next level, right associativity).

(** [[f(x) for x in s]] where [f] may raise: the first exception wins. *)
Fixpoint mapM {E A B : Type} (f : A -> outcome E B) (s : seq A) :
  outcome E (seq B) :=
  match s with
  | [::] => Ok [::]
  | x :: s' => y <- f x ;; ys <- mapM f s' ;; Ok (y :: ys)
  end.

(** ** The free module interface

    The operations of Sage's free modules that the subalgebra code calls.
    [submod] is the type of the submodules of the ambient coordinate
    module [m = L.module()], [vec] the type of its vectors. *)

Module FreeModule.

Record ops : Type := Ops {
  scalar : Type;
  zero : scalar;                                  (* base_ring().zero() *)
  is_zero : scalar -> bool;                       (* c.is_zero() *)
  vec : Type;
  submod : Type;
  degree : nat;                                   (* rank of m *)
  entries : vec -> seq scalar;                    (* list(v) *)
  submodule : seq vec -> submod;                  (* m.submodule(gens) *)
  submodule_with_basis : seq vec -> submod;       (* m.submodule_with_basis(b) *)
  dimension : submod -> nat;                      (* sm.dimension() *)
  basis : submod -> seq vec;                      (* sm.basis() *)
  echelonized_basis : submod -> seq vec;          (* sm.echelonized_basis() *)
  mem : vec -> submod -> bool;                    (* v in sm *)
  coordinate_vector : submod -> vec -> option (seq scalar);
                                                  (* sm.coordinate_vector(v);
                                                     None: ArithmeticError *)
  row_space : seq vec -> submod;                  (* matrix(R, rows).row_space() *)
  is_submodule : submod -> submod -> bool         (* A.is_submodule(B) *)
}.

End FreeModule.

(** ** The ambient Lie algebra *)

Module LieAlgebra.

Record type : Type := Pack {
  module : FreeModule.ops;                        (* L.module() *)
  elt : Type;
  to_vector : elt -> FreeModule.vec module;       (* X.to_vector() *)
  from_vector : FreeModule.vec module -> elt;     (* L.from_vector(v), L(v) *)
  bracket : elt -> elt -> elt;                    (* X._bracket_(Y) *)
  zero : elt;                                     (* L.zero() *)
  is_zero : elt -> bool;                          (* X.is_zero() *)
  basis : seq elt                                 (* L.basis() *)
}.

(** [L.dimension()] *)
Definition dimension (L : type) : nat := FreeModule.degree (module L).

(** [L.bracket(v, w)] called on two vectors of [L.module()]: both are
    converted to elements of [L] first. *)
Definition bracket_vectors (L : type) (v w : FreeModule.vec (module L)) : elt L :=
  bracket (from_vector v) (from_vector w).

End LieAlgebra.

Notation vector L := (FreeModule.vec (LieAlgebra.module L)).
Notation submodule_of L := (FreeModule.submod (LieAlgebra.module L)).
Notation scalar_of L := (FreeModule.scalar (LieAlgebra.module L)).

(** ** The subalgebra and its elements *)

(** [__init__]: [self._ambient = ambient; self._gens = gens]. *)
Record Subalgebra : Type := MkSubalgebra {
  _ambient : LieAlgebra.type;
  _gens : seq (LieAlgebra.elt _ambient)
}.

(** [class Element(LieAlgebraElementWrapper)]: an element of the subalgebra
    [S] wraps one element of the ambient Lie algebra; its parent is the
    index [S]. *)
Record element (S : Subalgebra) : Type := MkElement {
  value : LieAlgebra.elt (_ambient S)
}.

Arguments MkElement S value : clear implicits.

(** The exceptions of the file.  The [ValueError] of [retract] carries the
    two values its message is formatted from. *)
Inductive exn : Type :=
| ValueError_not_in (S : Subalgebra) (X : LieAlgebra.elt (_ambient S))
    (* "the element %s is not in %s" % (X, self) *)
| ValueError
| TypeError
| ArithmeticError
| IndexError
| KeyError (k : nat)
| NameError (name : string)
| NotImplementedError (msg : string).

(** [except (ValueError, TypeError)] *)
Definition is_ValueError_or_TypeError (e : exn) : bool :=
  match e with
  | ValueError_not_in _ _ | ValueError | TypeError => true
  | _ => false
  end.

Notation result := (outcome exn).

Section Methods.

Variable S : Subalgebra.

Let L := _ambient S.

Definition ambient : LieAlgebra.type := _ambient S.

Definition gens : seq (LieAlgebra.elt L) := _gens S.

Definition lie_algebra_generators : seq (LieAlgebra.elt L) := _gens S.

Definition lift (X : element S) : LieAlgebra.elt L := value X.

(** One pass of the loop body of [basis]: the basis of [sm] followed by the
    brackets of all ordered pairs of basis vectors. *)
Definition bracket_pass (sm : submodule_of L) : submodule_of L :=
  let SB := FreeModule.basis sm in
  FreeModule.submodule
    (FreeModule.basis sm ++
     [seq LieAlgebra.to_vector (LieAlgebra.bracket_vectors v w)
     | v <- SB, w <- SB]).

(** [while sm.dimension() > d: d = sm.dimension(); sm = ...].  [fuel]
    bounds the number of executions of the body; the second component
    counts them. *)
Fixpoint saturate (fuel : nat) (sm : submodule_of L) (d : nat) (k : nat) :
  result (submodule_of L * nat) :=
  if d < FreeModule.dimension sm then
    match fuel with
    | 0 => OutOfFuel
    | fuel'.+1 =>
        saturate fuel' (bracket_pass sm) (FreeModule.dimension sm) k.+1
    end
  else Ok (sm, k).

(** [m.submodule([X.to_vector() for X in self.lie_algebra_generators()])],
    the value of [sm] when the loop is entered. *)
Definition generated_submodule : submodule_of L :=
  FreeModule.submodule
    [seq LieAlgebra.to_vector X | X <- lie_algebra_generators].

(** The submodule [sm] that [basis] holds when its loop exits, with the
    number of passes.  The budget is the dimension of the ambient. *)
Definition closure : result (submodule_of L * nat) :=
  saturate (LieAlgebra.dimension L) generated_submodule 0 0.

Definition basis : result (seq (element S)) :=
  smk <- closure ;;
  Ok [seq MkElement S (LieAlgebra.from_vector v)
     | v <- FreeModule.echelonized_basis smk.1].

Definition module : result (submodule_of L) :=
  B <- basis ;;
  let ambientbasis := [seq LieAlgebra.to_vector (lift X) | X <- B] in
  Ok (FreeModule.submodule_with_basis ambientbasis).

Definition basis_matrix : result (seq (vector L)) :=
  sm <- module ;; Ok (FreeModule.basis sm).

(** [__contains__] on an element of the ambient Lie algebra. *)
Definition __contains__ (x : LieAlgebra.elt L) : result bool :=
  sm <- module ;; Ok (FreeModule.mem (LieAlgebra.to_vector x) sm).

Definition retract (X : LieAlgebra.elt L) : result (element S) :=
  b <- __contains__ X ;;
  if ~~ b then Raise (ValueError_not_in X) else Ok (MkElement S X).

Definition zero : element S := MkElement S (LieAlgebra.zero L).

(** [self.element_class(self, self.lie_algebra_generators()[0])]: the
    index [0] of an empty tuple raises [IndexError]. *)
Definition _an_element_ : result (element S) :=
  match lie_algebra_generators with
  | [::] => Raise IndexError
  | g :: _ => Ok (MkElement S g)
  end.

(** [from_vector] on a vector of the ambient module, whose length is
    [self.ambient().dimension()]. *)
Definition from_vector (v : vector L) : result (element S) :=
  retract (LieAlgebra.from_vector v).

End Methods.

Arguments bracket_pass S sm : clear implicits.
Arguments saturate S fuel sm d k : clear implicits.
Arguments __contains__ S x : clear implicits.
Arguments retract S X : clear implicits.
Arguments from_vector S v : clear implicits.

(** The bound that makes the loop of [basis] stop: the dimension of a
    submodule is at most the rank of the module it lies in. *)
Definition dimension_bounded (M : FreeModule.ops) : Prop :=
  forall l : seq (FreeModule.vec M),
    FreeModule.dimension (FreeModule.submodule l) <= FreeModule.degree M.

(** The value of [sm] after [j] executions of the loop body. *)
Definition passes (S : Subalgebra) (sm : submodule_of (_ambient S)) (j : nat) :
  submodule_of (_ambient S) :=
  iter j (bracket_pass S) sm.

Arguments passes S sm j : clear implicits.

(** ** Methods of the elements *)

Module Element.

Section ElementMethods.

Variable S : Subalgebra.

Let L := _ambient S.

(** [self.value.to_vector()] *)
Definition to_vector (X : element S) : vector L :=
  LieAlgebra.to_vector (value X).

(** [P.retract(self_lift._bracket_(x_lift))] *)
Definition _bracket_ (X x : element S) : result (element S) :=
  let self_lift := value X in
  let x_lift := value x in
  retract S (LieAlgebra.bracket self_lift x_lift).

(** [{k: v[k] for k in range(len(v)) if not v[k].is_zero()}]: the
    dictionary is the list of its items, keys increasing. *)
Definition monomial_coefficients (X : element S) :
  result (seq (nat * scalar_of L)) :=
  sm <- module S ;;
  match FreeModule.coordinate_vector sm (to_vector X) with
  | None => Raise ArithmeticError
  | Some v =>
      Ok [seq (k, nth (FreeModule.zero _) v k)
         | k <- iota 0 (size v)
         & ~~ FreeModule.is_zero (nth (FreeModule.zero _) v k)]
  end.

(** [d[i]] on a dictionary: a missing key raises [KeyError]. *)
Fixpoint dict_getitem (A : Type) (d : seq (nat * A)) (i : nat) : result A :=
  match d with
  | [::] => Raise (KeyError i)
  | (k, a) :: d' => if k == i then Ok a else dict_getitem d' i
  end.

(** [try: return self.monomial_coefficients()[i]
     except IndexError: return self.parent().base_ring().zero()] *)
Definition __getitem__ (X : element S) (i : nat) : result (scalar_of L) :=
  match (d <- monomial_coefficients X ;; dict_getitem d i) with
  | Raise IndexError => Ok (FreeModule.zero _)
  | r => r
  end.

End ElementMethods.

End Element.

(** ** Conversion into the subalgebra and the bracket syntax *)

(** The arguments that [_element_constructor_] and [__getitem__] tell
    apart. *)
Inductive pyobj (S : Subalgebra) : Type :=
| PElement (e : element S)                      (* x.parent() is self *)
| PAmbient (x : LieAlgebra.elt (_ambient S))    (* x.parent() == self.ambient() *)
| PVector (v : vector (_ambient S))             (* a vector of L.module() *)
| PList (l : seq (pyobj S))
| PTuple (l : seq (pyobj S))
| POther.                                       (* any other object *)

Arguments POther {S}.

Section Conversion.

Variable S : Subalgebra.

(** [_element_constructor_].  A list or a tuple has no [parent] (the
    [AttributeError] is passed over) and is not in [self.module()]; the
    last resort [sup._element_constructor_(x)] is outside of the file
    and is taken to reject its argument with a [TypeError]. *)
Fixpoint _element_constructor_ (x : pyobj S) : result (element S) :=
  match x with
  | PElement e => Ok e
  | PAmbient x => retract S x
  | PVector v =>
      sm <- module S ;;
      if FreeModule.mem v sm then from_vector S v else Raise TypeError
  | PList [:: a; b] =>
      ea <- _element_constructor_ a ;;
      eb <- _element_constructor_ b ;;
      Element._bracket_ ea eb
  | PList _ | PTuple _ | POther => Raise TypeError
  end.

(** [__getitem__] of the parent.  The second branch of the source is
    [super(...); return sup.__getitem__(x)], and [sup] is bound nowhere. *)
Definition __getitem__ (x : pyobj S) : result (element S) :=
  match x with
  | PTuple [:: x0; x1] =>
      e0 <- _element_constructor_ x0 ;;
      e1 <- _element_constructor_ x1 ;;
      Element._bracket_ e0 e1
  | _ => Raise (NameError "sup")
  end.

(** [is_ideal(A)].  What the method observes of [A]: whether it equals
    [self], whether it is a finite dimensional Lie algebra with basis,
    its basis, and [A.bracket(b, ab).to_vector()] for [b] in [self]. *)
Record candidate : Type := MkCandidate {
  eq_self : bool;                                 (* A == self *)
  in_category : bool;
  celt : Type;
  cbasis : seq celt;                              (* A.basis() *)
  cbracket : element S -> celt -> result (vector (_ambient S))
}.

(** The ambient Lie algebra as a candidate: [b] is coerced by [lift]. *)
Definition ambient_candidate : candidate :=
  {| eq_self := false;
     in_category := true;
     cbasis := LieAlgebra.basis (_ambient S);
     cbracket := fun b ab =>
       Ok (LieAlgebra.to_vector (LieAlgebra.bracket (lift b) ab)) |}.

(** The subalgebra itself as a candidate. *)
Definition same_candidate : candidate :=
  {| eq_self := true;
     in_category := true;
     cbasis := if basis S is Ok B then B else [::];
     cbracket := fun b ab =>
       X <- Element._bracket_ b ab ;; Ok (Element.to_vector X) |}.

(** A candidate whose bracket with the elements of [self] raises [e]. *)
Definition foreign_candidate (e : exn) : candidate :=
  {| eq_self := false;
     in_category := true;
     cbasis := [:: tt];
     cbracket := fun _ _ => Raise e |}.

(** [[A.bracket(b, ab).to_vector() for b in B for ab in AB]] *)
Definition bracket_rows (A : candidate) (B : seq (element S)) :
  result (seq (vector (_ambient S))) :=
  mapM (fun p => cbracket p.1 p.2) [seq (b, ab) | b <- B, ab <- cbasis A].

Definition is_ideal (A : candidate) : result bool :=
  if eq_self A then Ok true
  else if ~~ in_category A then
    Raise (NotImplementedError
             "A must be a finite dimensional Lie algebra with basis")
  else
    B <- basis S ;;
    match bracket_rows A B with
    | Raise e => if is_ValueError_or_TypeError e then Ok false else Raise e
    | OutOfFuel => OutOfFuel
    | Ok rows =>
        sm <- module S ;;
        Ok (FreeModule.is_submodule (FreeModule.row_space rows) sm)
    end.

End Conversion.

(** ** Construction *)

(** The [ambient] argument of the constructor: a Lie algebra or one of its
    subalgebras. *)
Inductive parent : Type :=
| Top (L : LieAlgebra.type)
| Sub (S : Subalgebra).

Definition parent_elt (P : parent) : Type :=
  match P with
  | Top L => LieAlgebra.elt L
  | Sub S' => element S'
  end.

(** [gens] is a list, or a single element. *)
Inductive gens_arg (P : parent) : Type :=
| One (gen : parent_elt P)
| Many (gens : seq (parent_elt P)).

Definition elt_is_zero (P : parent) : parent_elt P -> bool :=
  match P with
  | Top L => @LieAlgebra.is_zero L
  | Sub S' => fun gen => LieAlgebra.is_zero (value gen)
  end.

(** [__classcall_private__]: the normalisation before the instance is
    created (the category argument is bookkeeping and is left out).  The
    generators are elements of [ambient] already, so that [ambient(gen)]
    is [gen]. *)
Definition __classcall_private__ (P : parent) (gens : gens_arg P) : Subalgebra :=
  let gens := match gens with One gen => [:: gen] | Many gens => gens end in
  let gens := [seq gen <- gens | ~~ elt_is_zero gen] in
  match P return seq (parent_elt P) -> Subalgebra with
  | Sub S' => fun gens => MkSubalgebra [seq lift gen | gen <- gens]
  | Top L => fun gens => MkSubalgebra gens
  end gens.

Arguments __classcall_private__ P gens : clear implicits.

(** [P.subalgebra(gens)] on a list of generators. *)
Definition subalgebra (P : parent) (gens : seq (parent_elt P)) : Subalgebra :=
  __classcall_private__ P (Many gens).

Arguments subalgebra P gens : clear implicits.

(** The subalgebras that the constructor gives from a Lie algebra [L],
    through any number of intermediate subalgebras. *)
Inductive nested (L : LieAlgebra.type) : Subalgebra -> Prop :=
| nested_top (gens : gens_arg (Top L)) :
    nested L (__classcall_private__ (Top L) gens)
| nested_sub (S : Subalgebra) (gens : gens_arg (Sub S)) :
    nested L S -> nested L (__classcall_private__ (Sub S) gens).

(** ** First instance: coordinates in a field

    The ambient module is the space of row vectors ['rV[F]_n]; a submodule
    is the canonical square matrix [<<A>>%MS] of its row space, so that two
    submodules with the same vectors are equal, as two submodules of Sage
    with the same echelonized basis are.  The Lie algebra is given by its
    structure coefficients, [sc i j] being the bracket of the basis
    elements [i] and [j]. *)

Module OverField.

Import GRing.Theory.
Local Open Scope ring_scope.

Section Instance.

Variables (F : fieldType) (n : nat).

Definition entries k (v : 'rV[F]_k) : seq F := [seq v 0 i | i <- enum 'I_k].

(** The matrix whose rows are the vectors of [l]. *)
Definition rows_mx (l : seq 'rV[F]_n) : 'M[F]_(size l, n) :=
  \matrix_(i < size l) nth 0 l i.

Definition rows k (A : 'M[F]_(k, n)) : seq 'rV[F]_n :=
  [seq row i A | i <- enum 'I_k].

Definition span (l : seq 'rV[F]_n) : 'M[F]_n := <<rows_mx l>>%MS.

(** The basis that represents a submodule: [\rank A] independent rows,
    a function of the submodule alone. *)
Definition basis_rows (A : 'M[F]_n) : seq 'rV[F]_n := rows (row_base A).

Definition coordinates (A : 'M[F]_n) (v : 'rV[F]_n) : option (seq F) :=
  if (v <= A)%MS then Some (entries (v *m pinvmx (row_base A))) else None.

Definition free_module : FreeModule.ops :=
  {| FreeModule.scalar := F;
     FreeModule.zero := 0;
     FreeModule.is_zero := fun c => c == 0;
     FreeModule.vec := 'rV[F]_n;
     FreeModule.submod := 'M[F]_n;
     FreeModule.degree := n;
     FreeModule.entries := @entries n;
     FreeModule.submodule := span;
     FreeModule.submodule_with_basis := span;
     FreeModule.dimension := fun A => \rank A;
     FreeModule.basis := basis_rows;
     FreeModule.echelonized_basis := basis_rows;
     FreeModule.mem := fun v A => (v <= A)%MS;
     FreeModule.coordinate_vector := coordinates;
     FreeModule.row_space := span;
     FreeModule.is_submodule := fun A B => (A <= B)%MS |}.

Variable sc : 'I_n -> 'I_n -> 'rV[F]_n.

(** The bracket extends the structure coefficients bilinearly. *)
Definition bracket (x y : 'rV[F]_n) : 'rV[F]_n :=
  \sum_i \sum_j (x 0 i * y 0 j) *: sc i j.

Definition algebra : LieAlgebra.type :=
  {| LieAlgebra.module := free_module;
     LieAlgebra.elt := 'rV[F]_n;
     LieAlgebra.to_vector := id;
     LieAlgebra.from_vector := id;
     LieAlgebra.bracket := bracket;
     LieAlgebra.zero := 0;
     LieAlgebra.is_zero := fun x => x == 0;
     LieAlgebra.basis := [seq delta_mx 0 i | i <- enum 'I_n] |}.

(** The subalgebra that a list of generators defines. *)
Definition subalgebra (gens : seq 'rV[F]_n) : Subalgebra :=
  subalgebra (Top algebra) gens.

(** A submodule [W] is closed under the bracket. *)
Definition bracket_closed k (W : 'M[F]_(k, n)) : Prop :=
  forall v w : 'rV[F]_n, (v <= W)%MS -> (w <= W)%MS -> (bracket v w <= W)%MS.

(** [cl] is the least bracket closed submodule above [sm], in canonical
    form. *)
Definition closure_of (sm cl : 'M[F]_n) : Prop :=
  [/\ <<cl>>%MS = cl, bracket_closed cl, (sm <= cl)%MS
    & forall k (W : 'M[F]_(k, n)),
        bracket_closed W -> (sm <= W)%MS -> (cl <= W)%MS].

(** The generators that the constructor keeps. *)
Definition nonzero (gens : seq 'rV[F]_n) : seq 'rV[F]_n :=
  [seq g <- gens | g != 0].

End Instance.

(** The basis vectors of a Lie algebra of dimension 3. *)
Definition e3 (F : fieldType) (i : nat) : 'rV[F]_3 := delta_mx 0 (inord i).

(** The Heisenberg algebra of rank 1: [[e_0, e_1] = e_2]. *)
Definition heisenberg (F : fieldType) (i j : 'I_3) : 'rV[F]_3 :=
  if (i == 0 :> nat) && (j == 1 :> nat) then e3 F 2
  else if (i == 1 :> nat) && (j == 0 :> nat) then - e3 F 2
  else 0.

(** The abelian Lie algebra of dimension 3: all brackets are zero. *)
Definition abelian (F : fieldType) (i j : 'I_3) : 'rV[F]_3 := 0.

End OverField.

(** ** Second instance: coordinates in the integers

    Over [ZZ] a submodule of Sage is the lattice that its generators span,
    held as the rows of a Hermite normal form: the pivots are positive,
    the entries above a pivot are reduced modulo the pivot, and
    [dimension] is the number of rows.  The instance is executable. *)

Module OverIntegers.

Local Open Scope Z_scope.

Definition row : Type := seq Z.

Definition coef (c : nat) (u : row) : Z := nth 0 u c.

(** [u - q * v] *)
Definition submul (u : row) (q : Z) (v : row) : row :=
  [seq p.1 - q * p.2 | p <- zip u v].

Definition addv (u v : row) : row := [seq p.1 + p.2 | p <- zip u v].

Definition scalev (a : Z) (u : row) : row := [seq a * x | x <- u].

Definition is_zero_row (u : row) : bool := all (fun x => x =? 0) u.

(** The column of the first non zero entry of a row. *)
Definition pivot (u : row) : nat := find (fun x => negb (x =? 0)) u.

(** Euclid's algorithm on the entries of two rows in column [c]: the
    second row that is returned has [0] there. *)
Fixpoint euclid (fuel : nat) (c : nat) (u v : row) : row * row :=
  if coef c v =? 0 then (u, v)
  else match fuel with
       | O => (u, v)
       | S fuel' => euclid fuel' c v (submul u (coef c u / coef c v) v)
       end.

(** Clears column [c]: at most one row keeps a non zero entry there. *)
Definition eliminate (c : nat) (rows : seq row) : option row * seq row :=
  foldl (fun (acc : option row * seq row) (r : row) =>
           if coef c r =? 0 then (acc.1, rcons acc.2 r)
           else match acc.1 with
                | None => (Some r, acc.2)
                | Some p =>
                    let gz := euclid (Z.abs_nat (coef c r)) c p r in
                    (Some gz.1, rcons acc.2 gz.2)
                end)
        (None, [::]) rows.

Definition normalize (c : nat) (u : row) : row :=
  if coef c u <? 0 then scalev (-1) u else u.

(** Row echelon form, column after column, [k] columns from [c] on. *)
Fixpoint echelon (k : nat) (c : nat) (rows : seq row) : seq row :=
  match k with
  | O => [::]
  | S k' =>
      match eliminate c rows with
      | (Some p, rest) => normalize c p :: echelon k' (S c) rest
      | (None, rest) => echelon k' (S c) rest
      end
  end.

(** Reduces the entries above the pivots. *)
Fixpoint reduce_above (rows : seq row) : seq row :=
  match rows with
  | [::] => [::]
  | r :: rest =>
      let rest' := reduce_above rest in
      foldl (fun r rj => submul r (coef (pivot rj) r / coef (pivot rj) rj) rj)
            r rest' :: rest'
  end.

Section Instance.

Variable n : nat.

Definition hermite (rows : seq row) : seq row :=
  reduce_above (echelon n 0 rows).

(** The coordinates of [v] on the rows of a Hermite normal form, if [v]
    is in the lattice. *)
Fixpoint coordinates (sm : seq row) (v : row) : option (seq Z) :=
  match sm with
  | [::] => if is_zero_row v then Some [::] else None
  | r :: sm' =>
      let c := pivot r in
      if coef c v mod coef c r =? 0 then
        let q := coef c v / coef c r in
        omap (cons q) (coordinates sm' (submul v q r))
      else None
  end.

Definition mem (v : row) (sm : seq row) : bool :=
  (size v == n) && isSome (coordinates sm v).

Definition free_module : FreeModule.ops :=
  {| FreeModule.scalar := Z;
     FreeModule.zero := 0;
     FreeModule.is_zero := fun c => c =? 0;
     FreeModule.vec := row;
     FreeModule.submod := seq row;
     FreeModule.degree := n;
     FreeModule.entries := id;
     FreeModule.submodule := hermite;
     FreeModule.submodule_with_basis := hermite;
     FreeModule.dimension := fun sm => size sm;
     FreeModule.basis := id;
     FreeModule.echelonized_basis := id;
     FreeModule.mem := mem;
     FreeModule.coordinate_vector := coordinates;
     FreeModule.row_space := hermite;
     FreeModule.is_submodule := fun A B => all (fun v => mem v B) A |}.

(** Structure coefficients as Sage takes them: [((i, j), r)] stands for
    [[e_i, e_j] = r], and for [[e_j, e_i] = - r]. *)
Variable sc : seq ((nat * nat) * row).

Definition zero_row : row := nseq n 0.

Definition unit_row (i : nat) : row :=
  [seq (if j == i then 1 else 0) | j <- iota 0 n].

Fixpoint structure_coefficient (d : seq ((nat * nat) * row)) (i j : nat) : row :=
  match d with
  | [::] => zero_row
  | ((a, b), r) :: d' =>
      if (a == i) && (b == j) then r
      else if (a == j) && (b == i) then scalev (-1) r
      else structure_coefficient d' i j
  end.

Definition bracket (x y : row) : row :=
  foldr addv zero_row
    [seq scalev (coef i x * coef j y) (structure_coefficient sc i j)
    | i <- iota 0 n, j <- iota 0 n].

Definition algebra : LieAlgebra.type :=
  {| LieAlgebra.module := free_module;
     LieAlgebra.elt := row;
     LieAlgebra.to_vector := id;
     LieAlgebra.from_vector := id;
     LieAlgebra.bracket := bracket;
     LieAlgebra.zero := zero_row;
     LieAlgebra.is_zero := is_zero_row;
     LieAlgebra.basis := [seq unit_row i | i <- iota 0 n] |}.

Definition subalgebra (gens : seq row) : Subalgebra :=
  subalgebra (Top algebra) gens.

End Instance.

End OverIntegers.

(** ** The algebras and subalgebras of the examples of the source *)

Module Examples.

Import OverIntegers.

Local Open Scope Z_scope.

(** [L.<x,y,z> = LieAlgebra(ZZ, {('x','y'): {'z': 1}})] *)
Definition heisenberg : seq ((nat * nat) * row) :=
  [:: ((0%N, 1%N), [:: 0; 0; 1])].

(** [L.<X,Y,Z> = LieAlgebra(ZZ, {('X','Y'): {'Z': 3}})] *)
Definition scaled : seq ((nat * nat) * row) :=
  [:: ((0%N, 1%N), [:: 0; 0; 3])].

(** [L.<x,y,z,w> = LieAlgebra(ZZ, {('x','y'): {'z': 1}, ('x','z'): {'w': 1}})] *)
Definition engel : seq ((nat * nat) * row) :=
  [:: ((0%N, 1%N), [:: 0; 0; 1; 0]); ((0%N, 2%N), [:: 0; 0; 0; 1])].

(** [L.subalgebra([X, Y])] and [L.subalgebra([Y, Z])] in [scaled]. *)
Definition S_XY : Subalgebra :=
  subalgebra 3 scaled [:: [:: 1; 0; 0]; [:: 0; 1; 0]].

Definition S_YZ : Subalgebra :=
  subalgebra 3 scaled [:: [:: 0; 1; 0]; [:: 0; 0; 1]].

(** [L.subalgebra([x, y])] in [heisenberg]. *)
Definition H_xy : Subalgebra :=
  subalgebra 3 heisenberg [:: [:: 1; 0; 0]; [:: 0; 1; 0]].

(** [L.subalgebra([x, y, 2*z, 4*w])] in [engel]: the rank is [4] from
    the start. *)
Definition stalled : Subalgebra :=
  subalgebra 4 engel
    [:: [:: 1; 0; 0; 0]; [:: 0; 1; 0; 0]; [:: 0; 0; 2; 0]; [:: 0; 0; 0; 4]].

(** [S1 = L.subalgebra([Y, Z, W])] in [engel], and
    [S2 = S1.subalgebra(S1.basis()[1:])]. *)
Definition S_YZW : Subalgebra :=
  subalgebra 4 engel [:: [:: 0; 1; 0; 0]; [:: 0; 0; 1; 0]; [:: 0; 0; 0; 1]].

Definition S_ZW : Subalgebra :=
  __classcall_private__ (Sub S_YZW)
    (@Many (Sub S_YZW)
       [:: MkElement S_YZW [:: 0; 0; 1; 0]; MkElement S_YZW [:: 0; 0; 0; 1]]).

End Examples.

(** ** The statement about [to_vector] that the code does not meet *)

(** [X.to_vector()] is the coordinate vector of [X] on the basis of the
    subalgebra, of length [dimension(S)]. *)
Definition to_vector_in_own_basis (S : Subalgebra) (X : element S) : Prop :=
  exists sm,
    [/\ module S = Ok sm,
        FreeModule.coordinate_vector sm (LieAlgebra.to_vector (value X)) =
          Some (FreeModule.entries (Element.to_vector X))
      & size (FreeModule.entries (Element.to_vector X)) =
          FreeModule.dimension sm].

(** * Properties *)

(** ** The outcome monad *)


(** ** The saturation loop, for any free module *)

Section GenericLemmas.

Variable S : Subalgebra.

Let L := _ambient S.
Let M := LieAlgebra.module L.

Lemma saturate_more_fuel fuel fuel' sm d k r :
  saturate S fuel sm d k = Ok r -> fuel <= fuel' ->
  saturate S fuel' sm d k = Ok r.
Proof.
elim: fuel fuel' sm d k => [|fuel IH] [|fuel'] sm d k //=;
  case: ifP => // _ //.
by move=> eq_r le_f; apply: IH.
Qed.

Lemma passesSr sm j : passes S sm j.+1 = passes S (bracket_pass S sm) j.
Proof. by rewrite /passes iterSr. Qed.

Lemma saturate_trace fuel sm d k :
  dimension_bounded M -> (exists l, sm = FreeModule.submodule l) ->
  FreeModule.degree M <= d + fuel ->
  exists j,
    [/\ j <= fuel,
        saturate S fuel sm d k = Ok (passes S sm j, k + j),
        forall i, i < j ->
          (if i is i'.+1 then FreeModule.dimension (passes S sm i') else d)
          < FreeModule.dimension (passes S sm i)
      & FreeModule.dimension (passes S sm j)
        <= (if j is j'.+1 then FreeModule.dimension (passes S sm j') else d)].
Proof.
move=> bounded.
elim: fuel sm d k => [|fuel IH] sm d k [l eq_sm] bound.
  exists 0; rewrite /= addn0 in bound *.
  have le_d : FreeModule.dimension sm <= d.
    by rewrite eq_sm; apply: leq_trans (bounded l) bound.
  by rewrite ltnNge le_d addn0; split.
rewrite /=; case: ltnP => [lt_d | le_d]; last first.
  by exists 0; rewrite addn0; split.
have [||j [le_j eq_sat incr stop]] :=
  IH (bracket_pass S sm) (FreeModule.dimension sm) k.+1.
- by eexists.
- by apply: leq_trans bound _; rewrite addnS -addSn leq_add2r.
exists j.+1; rewrite passesSr addnS -addSn; split=> //.
- case=> [|i] //; rewrite ltnS => /incr.
  rewrite [passes S sm i.+1]passesSr.
  by case: i => [|i] h; [exact: h | rewrite [passes S sm _]passesSr].
- by case: (j) stop => [|j'] h; [exact: h | rewrite [passes S sm _]passesSr].
Qed.

End GenericLemmas.

(** ** Hermite normal forms, totality of [module], retraction *)

Section IntegerLemmas.

Import OverIntegers.

Lemma size_reduce_above rows : size (reduce_above rows) = size rows.
Proof. by elim: rows => //= r rows ->. Qed.

Lemma size_echelon k c rows : size (echelon k c rows) <= k.
Proof.
elim: k c rows => //= k IH c rows.
by case: (eliminate c rows) => [[p|] rest] /=; rewrite ?ltnS ?(leqW (IH _ _)).
Qed.

Lemma hermite_bounded n : dimension_bounded (free_module n).
Proof. by move=> l; rewrite /= /hermite size_reduce_above size_echelon. Qed.

End IntegerLemmas.

Section GenericRetract.

Variable S : Subalgebra.

Lemma closure_total :
  dimension_bounded (LieAlgebra.module (_ambient S)) ->
  exists smk, closure S = Ok smk.
Proof.
move=> bounded.
have [||j [_ eq_sat _ _]] :=
  @saturate_trace S (LieAlgebra.dimension (_ambient S))
     (generated_submodule S) 0 0 bounded.
- by eexists.
- by [].
by eexists; apply: eq_sat.
Qed.

Lemma module_total :
  dimension_bounded (LieAlgebra.module (_ambient S)) ->
  exists sm, module S = Ok sm.
Proof.
by case/closure_total=> smk eq_cl; rewrite /module /basis eq_cl /=; eexists.
Qed.

Lemma retract_in X sm :
  module S = Ok sm -> FreeModule.mem (LieAlgebra.to_vector X) sm ->
  retract S X = Ok (MkElement S X).
Proof. by move=> eq_sm X_sm; rewrite /retract /__contains__ eq_sm /= X_sm. Qed.

Lemma retract_out X sm :
  module S = Ok sm -> FreeModule.mem (LieAlgebra.to_vector X) sm = false ->
  retract S X = Raise (ValueError_not_in X).
Proof. by move=> eq_sm X_sm; rewrite /retract /__contains__ eq_sm /= X_sm. Qed.

End GenericRetract.


(** ** Row spaces over a field *)

Section FieldLinearAlgebra.

Import GRing.Theory.
Local Open Scope ring_scope.
Import OverField.

Variables (F : fieldType) (n : nat).
Implicit Types (l : seq 'rV[F]_n) (v w : 'rV[F]_n).

Lemma row_rows_mx l (i : 'I_(size l)) : row i (rows_mx l) = nth 0 l i.
Proof. by apply/rowP => j; rewrite !mxE. Qed.

Lemma rows_mx_sub k (W : 'M[F]_(k, n)) l :
  (rows_mx l <= W)%MS = all (fun v => (v <= W)%MS) l.
Proof.
apply/row_subP/allP => [h v /(nthP 0) [i ilt <-] | h i].
  by have := h (Ordinal ilt); rewrite row_rows_mx.
by rewrite row_rows_mx; apply: h; apply: mem_nth.
Qed.

Lemma span_sub k (W : 'M[F]_(k, n)) l :
  (span l <= W)%MS = all (fun v => (v <= W)%MS) l.
Proof. by rewrite /span genmxE rows_mx_sub. Qed.

Lemma sub_span k (W : 'M[F]_(k, n)) l : (W <= span l)%MS = (W <= rows_mx l)%MS.
Proof. by rewrite /span genmxE. Qed.

Lemma mem_span l v : v \in l -> (v <= span l)%MS.
Proof.
move=> vl; have: (span l <= span l)%MS by apply: submx_refl.
by rewrite span_sub => /allP; apply.
Qed.

Lemma span_id l : <<span l>>%MS = span l.
Proof. by rewrite /span genmx_id. Qed.

Lemma span_mono l1 l2 : {subset l1 <= l2} -> (span l1 <= span l2)%MS.
Proof. by move=> h; rewrite span_sub; apply/allP => v /h /mem_span. Qed.

Lemma rows_mx_rows k (A : 'M[F]_(k, n)) : (rows_mx (rows A) :=: A)%MS.
Proof.
apply/eqmxP/andP; split.
  by rewrite rows_mx_sub; apply/allP => v /mapP [i _ ->]; apply: row_sub.
apply/row_subP => i; rewrite -sub_span; apply: mem_span.
by apply: map_f; rewrite mem_enum.
Qed.

Lemma basis_rows_eq (A : 'M[F]_n) : (rows_mx (basis_rows A) :=: A)%MS.
Proof. exact: eqmx_trans (rows_mx_rows _) (eq_row_base A). Qed.

Lemma span_basis_rows (A : 'M[F]_n) : span (basis_rows A) = <<A>>%MS.
Proof. by apply/genmxP/eqmxP; apply: basis_rows_eq. Qed.

Lemma size_basis_rows (A : 'M[F]_n) : size (basis_rows A) = \rank A.
Proof. by rewrite size_map size_enum_ord. Qed.

Lemma basis_rows_sub (A : 'M[F]_n) v : v \in basis_rows A -> (v <= A)%MS.
Proof.
move=> vA; have: (rows_mx (basis_rows A) <= A)%MS by rewrite basis_rows_eq.
by rewrite rows_mx_sub => /allP; apply.
Qed.

Lemma rank_bounded : dimension_bounded (free_module F n).
Proof. by move=> l; apply: rank_leq_col. Qed.

(** [coordinates] solves against the basis of the submodule: the
    combination of the basis rows with these coefficients is the vector. *)
Lemma coordinates_correct (A : 'M[F]_n) v c :
  coordinates A v = Some c ->
  exists2 u : 'rV[F]_(\rank A), c = entries u & u *m row_base A = v.
Proof.
rewrite /coordinates; case: ifP => // v_A [<-].
exists (v *m pinvmx (row_base A)) => //.
by rewrite mulmxKpV // eq_row_base.
Qed.

Lemma size_entries k (u : 'rV[F]_k) : size (entries u) = k.
Proof. by rewrite size_map size_enum_ord. Qed.

End FieldLinearAlgebra.

(** ** The bracket over a field *)

Section FieldBracket.

Import GRing.Theory.
Local Open Scope ring_scope.
Import OverField.

Variables (F : fieldType) (n : nat) (sc : 'I_n -> 'I_n -> 'rV[F]_n).
Implicit Types (l : seq 'rV[F]_n) (v w x y z : 'rV[F]_n).

Local Notation bracket := (bracket sc).
Local Notation bracket_closed := (bracket_closed sc).

Lemma bracketDl x y z : bracket (x + y) z = bracket x z + bracket y z.
Proof.
rewrite /bracket -big_split /=; apply: eq_bigr => i _.
rewrite -big_split /=; apply: eq_bigr => j _.
by rewrite mxE mulrDl scalerDl.
Qed.

Lemma bracketZl a x z : bracket (a *: x) z = a *: bracket x z.
Proof.
rewrite /bracket scaler_sumr; apply: eq_bigr => i _.
rewrite scaler_sumr; apply: eq_bigr => j _.
by rewrite mxE scalerA mulrA.
Qed.

Lemma bracketDr z x y : bracket z (x + y) = bracket z x + bracket z y.
Proof.
rewrite /bracket -big_split /=; apply: eq_bigr => i _.
rewrite -big_split /=; apply: eq_bigr => j _.
by rewrite mxE mulrDr scalerDl.
Qed.

Lemma bracketZr a z x : bracket z (a *: x) = a *: bracket z x.
Proof.
rewrite /bracket scaler_sumr; apply: eq_bigr => i _.
rewrite scaler_sumr; apply: eq_bigr => j _.
by rewrite mxE scalerA mulrCA.
Qed.

Lemma bracket0l z : bracket 0 z = 0.
Proof. by have := bracketZl 0 0 z; rewrite !scale0r. Qed.

Lemma bracket0r z : bracket z 0 = 0.
Proof. by have := bracketZr 0 z 0; rewrite !scale0r. Qed.

Lemma bracket_suml (I : Type) (r : seq I) (f : I -> 'rV[F]_n) z :
  bracket (\sum_(i <- r) f i) z = \sum_(i <- r) bracket (f i) z.
Proof.
exact: (big_morph (fun x => bracket x z) (fun x y => bracketDl x y z)
          (bracket0l z)).
Qed.

Lemma bracket_sumr (I : Type) (r : seq I) (f : I -> 'rV[F]_n) z :
  bracket z (\sum_(i <- r) f i) = \sum_(i <- r) bracket z (f i).
Proof. exact: (big_morph (bracket z) (bracketDr z) (bracket0r z)). Qed.

(** The brackets of the rows of two matrices decide the brackets of the
    vectors of their row spaces. *)
Lemma bracket_rows_sub k1 (B1 : 'M[F]_(k1, n)) k2 (B2 : 'M[F]_(k2, n))
    m (W : 'M[F]_(m, n)) :
  (forall i j, (bracket (row i B1) (row j B2) <= W)%MS) ->
  forall v w, (v <= B1)%MS -> (w <= B2)%MS -> (bracket v w <= W)%MS.
Proof.
move=> hB v w /submxP [cv ->] /submxP [cw ->].
rewrite !mulmx_sum_row bracket_suml; apply: summx_sub => i _.
rewrite bracketZl scalemx_sub // bracket_sumr; apply: summx_sub => j _.
by rewrite bracketZr scalemx_sub.
Qed.

Lemma zero_closed k (W : 'M[F]_(k, n)) : \rank W = 0 -> bracket_closed W.
Proof.
move=> /eqP; rewrite mxrank_eq0 => /eqP -> v w /submx0null -> _.
by rewrite bracket0l sub0mx.
Qed.

Section Saturation.

Variable gens : seq 'rV[F]_n.

Let S := MkSubalgebra (_ambient := algebra sc) gens.

Local Notation pass := (bracket_pass S).

Lemma passE (sm : 'M[F]_n) :
  pass sm = span (basis_rows sm ++
                  [seq bracket v w | v <- basis_rows sm, w <- basis_rows sm]).
Proof. by []. Qed.

Lemma sub_pass (sm : 'M[F]_n) : (sm <= pass sm)%MS.
Proof.
rewrite passE -(basis_rows_eq sm) rows_mx_sub; apply/allP => v vsm.
by apply: mem_span; rewrite mem_cat vsm.
Qed.

Lemma pass_sub k (W : 'M[F]_(k, n)) (sm : 'M[F]_n) :
  bracket_closed W -> (sm <= W)%MS -> (pass sm <= W)%MS.
Proof.
move=> clW smW; rewrite passE span_sub all_cat; apply/andP; split.
  by apply/allP => v /basis_rows_sub /submx_trans; apply.
apply/allP => u /allpairsP [[v w] /= [vsm wsm ->]].
by apply: clW; apply: submx_trans smW; apply: basis_rows_sub.
Qed.

Lemma pass_closed (sm : 'M[F]_n) :
  (\rank (pass sm) <= \rank sm)%N -> bracket_closed (pass sm).
Proof.
move=> rk.
have eqp : (pass sm <= sm)%MS.
  by rewrite -(geq_leqif (mxrank_leqif_sup (sub_pass sm))).
have hrows i j : (bracket (row i (row_base sm)) (row j (row_base sm))
                  <= pass sm)%MS.
  rewrite passE; apply: mem_span; rewrite mem_cat; apply/orP; right.
  by apply/allpairsP; exists (row i (row_base sm), row j (row_base sm));
     split=> //=; apply: map_f; rewrite mem_enum.
move=> v w vp wp; apply: (bracket_rows_sub hrows).
  by rewrite eq_row_base; apply: submx_trans eqp.
by rewrite eq_row_base; apply: submx_trans eqp.
Qed.

Lemma pass_canonical (sm : 'M[F]_n) : <<pass sm>>%MS = pass sm.
Proof. by rewrite passE span_id. Qed.

End Saturation.

End FieldBracket.

(** ** The closure over a field *)

Section FieldClosure.

Import GRing.Theory.
Local Open Scope ring_scope.
Import OverField.

Variables (F : fieldType) (n : nat) (sc : 'I_n -> 'I_n -> 'rV[F]_n).
Implicit Types (l gens : seq 'rV[F]_n) (v w x y z : 'rV[F]_n).

Local Notation bracket_closed := (bracket_closed sc).
Local Notation direct gens := (MkSubalgebra (_ambient := algebra sc) gens).

Lemma saturate_over_field gens fuel (sm : 'M[F]_n) d k :
  (n <= d + fuel)%N -> <<sm>>%MS = sm ->
  ((\rank sm <= d)%N -> bracket_closed sm) ->
  exists cl k', [/\ saturate (direct gens) fuel sm d k = Ok (cl, k'),
                    closure_of sc sm cl & (k' <= k + fuel)%N].
Proof.
elim: fuel sm d k => [|fuel IH] sm d k bound can cl_sm.
  exists sm, k; rewrite /= ltnNge.
  have le_d : (\rank sm <= d)%N.
    by apply: leq_trans (rank_leq_col sm) _; rewrite addn0 in bound.
  by rewrite le_d /= addn0; split=> //; split=> //; apply: cl_sm.
rewrite /=; case: ltnP => [lt_d | le_d]; last first.
  by exists sm, k; split; [|split=> //; apply: cl_sm |apply: leq_addr].
have [] := IH (bracket_pass (direct gens) sm) (\rank sm) k.+1.
- by apply: leq_trans bound _; rewrite addnS -addSn leq_add2r.
- exact: pass_canonical.
- exact: pass_closed.
move=> cl [k' [eq_sat [can_cl cl_cl sub_cl min_cl] le_k']].
exists cl, k'; split=> //; last by rewrite addnS -addSn.
split=> //; first exact: submx_trans (sub_pass sc gens sm) sub_cl.
by move=> m W clW smW; apply: min_cl => //; apply: pass_sub.
Qed.

Lemma closure_over_field gens :
  exists cl k, [/\ closure (direct gens) = Ok (cl, k),
                   closure_of sc (span gens) cl & (k <= n)%N].
Proof.
rewrite /closure /generated_submodule /lie_algebra_generators /= map_id.
have [] := @saturate_over_field gens n (span gens) 0 0.
- by rewrite add0n.
- exact: span_id.
- by rewrite leqn0 => /eqP; apply: zero_closed.
by move=> cl [k [eq_sat cl_of le_k]]; exists cl, k; split.
Qed.

Lemma basis_over_field gens cl k :
  closure (direct gens) = Ok (cl, k) ->
  basis (direct gens) =
    Ok [seq MkElement (direct gens) v | v <- basis_rows cl].
Proof. by rewrite /basis => ->. Qed.

Lemma module_over_field gens cl k :
  closure (direct gens) = Ok (cl, k) -> <<cl>>%MS = cl ->
  module (direct gens) = Ok cl.
Proof.
move=> eq_cl can_cl; rewrite /module (basis_over_field eq_cl) /=.
by rewrite -map_comp /= map_id span_basis_rows can_cl.
Qed.

End FieldClosure.

Section FieldTheorems.

Import GRing.Theory.
Local Open Scope ring_scope.
Import OverField.

Variables (F : fieldType) (n : nat) (sc : 'I_n -> 'I_n -> 'rV[F]_n).
Implicit Types (l gens : seq 'rV[F]_n) (v w x y z : 'rV[F]_n).

Local Notation bracket_closed := (bracket_closed sc).
Local Notation direct gens := (MkSubalgebra (_ambient := algebra sc) gens).
Local Notation subalgebra := (subalgebra sc).

Lemma subalgebraE gens : subalgebra gens = direct (nonzero gens).
Proof. by []. Qed.

Lemma span_nonzero gens : span (nonzero gens) = span gens.
Proof.
apply/genmxP/andP; split; rewrite rows_mx_sub; apply/allP => g;
  rewrite -sub_span.
  by rewrite mem_filter => /andP [_ /mem_span].
have [-> _ | nz gl] := eqVneq g 0; first exact: sub0mx.
by apply: mem_span; rewrite mem_filter nz.
Qed.

Lemma span_nil : span [::] = 0 :> 'M[F]_n.
Proof. by rewrite /span (flatmx0 (rows_mx [::])) -(flatmx0 0) genmx0. Qed.

(** Over a field the module of a subalgebra is the least bracket closed
    submodule that contains the generators. *)
Lemma module_minimal_over_field gens :
  exists sm : 'M[F]_n,
    [/\ module (subalgebra gens) = Ok sm,
        forall g, g \in gens -> (g <= sm)%MS,
        bracket_closed sm,
        forall k (W : 'M[F]_(k, n)),
          bracket_closed W -> (forall g, g \in gens -> (g <= W)%MS) ->
          (sm <= W)%MS
      & gens = [::] -> sm = 0].
Proof.
have [cl [k [eq_cl [can_cl cl_cl sub_cl min_cl] _]]] :=
  closure_over_field sc (nonzero gens).
exists cl; split=> //.
- exact: module_over_field eq_cl can_cl.
- move=> g gl; apply: submx_trans sub_cl.
  by rewrite span_nonzero; apply: mem_span.
- move=> m W clW gW; apply: min_cl => //.
  by rewrite span_nonzero span_sub; apply/allP.
move=> gens0; apply/eqP; rewrite -submx0; apply: min_cl.
  by apply: zero_closed; rewrite mxrank0.
by rewrite gens0 span_nil.
Qed.

(** Over a field the bracket of two elements of the subalgebra retracts. *)
Lemma bracket_over_field gens (u v : element (subalgebra gens)) sm :
  module (subalgebra gens) = Ok sm ->
  (value u <= sm)%MS -> (value v <= sm)%MS ->
  Element._bracket_ u v =
    Ok (MkElement (subalgebra gens) (bracket sc (value u) (value v))).
Proof.
have [sm' [eq_sm _ cl_sm _ _]] := module_minimal_over_field gens.
rewrite eq_sm => - [<-] usm vsm.
by rewrite /Element._bracket_ /retract /__contains__ eq_sm /= cl_sm.
Qed.

End FieldTheorems.

Section FieldTheorems2.

Import GRing.Theory.
Local Open Scope ring_scope.
Import OverField.

Variables (F : fieldType) (n : nat) (sc : 'I_n -> 'I_n -> 'rV[F]_n).
Implicit Types (l gens : seq 'rV[F]_n) (v w x y z : 'rV[F]_n).

Local Notation bracket_closed := (bracket_closed sc).
Local Notation direct gens := (MkSubalgebra (_ambient := algebra sc) gens).
Local Notation subalgebra := (subalgebra sc).

Lemma span_ext gens1 gens2 :
  (forall v, (v <= span gens1)%MS = (v <= span gens2)%MS) ->
  span gens1 = span gens2.
Proof.
move=> h; rewrite -[LHS]span_id -[RHS]span_id.
by apply/genmxP/andP; split; apply/row_subP => i;
   [rewrite -h | rewrite h]; apply: row_sub.
Qed.

Lemma closure_of_unique (sm cl1 cl2 : 'M[F]_n) :
  closure_of sc sm cl1 -> closure_of sc sm cl2 -> cl1 = cl2.
Proof.
move=> [can1 cl1_cl sub1 min1] [can2 cl2_cl sub2 min2].
rewrite -can1 -can2; apply/genmxP.
by rewrite (min1 _ _ cl2_cl sub2) (min2 _ _ cl1_cl sub1).
Qed.

Lemma module_subalgebra_over_field gens :
  exists2 cl, closure_of sc (span gens) cl &
    module (subalgebra gens) = Ok cl
    /\ basis (subalgebra gens) =
         Ok [seq MkElement (subalgebra gens) v | v <- basis_rows cl].
Proof.
have [cl [k [eq_cl cl_of _]]] := closure_over_field sc (nonzero gens).
exists cl; first by rewrite -span_nonzero.
have [can_cl _ _ _] := cl_of; split.
  exact: module_over_field eq_cl can_cl.
exact: basis_over_field eq_cl.
Qed.


End FieldTheorems2.

(** ** The claims *)

Section GenericClaims.

Variable S : Subalgebra.

Let L := _ambient S.
Let M := LieAlgebra.module L.

(** C5.  The saturation loop of [basis] terminates.  When the dimension of
    a submodule never exceeds the dimension [n] of the ambient, the loop
    leaves after [k <= n] executions of its body, whatever budget of at
    least [n] executions it is given; the dimension has strictly increased
    at each of the [k] executions, and the loop leaves at the first pass
    that does not increase it. *)
Theorem saturation_terminates :
  dimension_bounded M ->
  exists k,
    [/\ k <= LieAlgebra.dimension L,
        closure S = Ok (passes S (generated_submodule S) k, k),
        forall fuel, LieAlgebra.dimension L <= fuel ->
          saturate S fuel (generated_submodule S) 0 0 =
            Ok (passes S (generated_submodule S) k, k),
        forall i, i < k ->
          (if i is i'.+1
           then FreeModule.dimension (passes S (generated_submodule S) i')
           else 0)
          < FreeModule.dimension (passes S (generated_submodule S) i)
      & FreeModule.dimension (passes S (generated_submodule S) k)
        <= (if k is k'.+1
            then FreeModule.dimension (passes S (generated_submodule S) k')
            else 0)].
Proof.
move=> bounded.
have [||k [le_k eq_sat incr stop]] :=
  @saturate_trace S (LieAlgebra.dimension L) (generated_submodule S) 0 0
    bounded.
- by eexists.
- by [].
exists k; split=> // fuel le_fuel.
exact: saturate_more_fuel eq_sat le_fuel.
Qed.

(** C2.  [retract(x)] raises exactly when the coordinate vector of [x] is
    not in [module()], and the exception carries [x] and the subalgebra;
    otherwise it wraps [x] itself, so that [lift(retract(x))] is [x]. *)
Theorem retract_spec (x : LieAlgebra.elt L) :
  dimension_bounded M ->
  exists sm,
    [/\ module S = Ok sm,
        FreeModule.mem (LieAlgebra.to_vector x) sm = false ->
          retract S x = Raise (ValueError_not_in x),
        FreeModule.mem (LieAlgebra.to_vector x) sm = true ->
          exists2 X, retract S x = Ok X & lift X = x
      & (exists e, retract S x = Raise e) <->
        FreeModule.mem (LieAlgebra.to_vector x) sm = false].
Proof.
case/module_total=> sm eq_sm; exists sm; split=> //.
- exact: retract_out.
- by move=> x_sm; exists (MkElement S x) => //; apply: retract_in eq_sm x_sm.
split=> [[e] | x_sm]; last by eexists; apply: retract_out eq_sm x_sm.
by case x_sm: (FreeModule.mem _ sm) => //; rewrite (retract_in eq_sm x_sm).
Qed.

(** C4.  [is_ideal(A)] is [True] when [A == self]; otherwise, for a finite
    dimensional [A] with basis, it is the inclusion of the row space of
    the brackets [[b, a]] in [module()] when these brackets can be
    computed, and [False] when their computation raises a [ValueError] or
    a [TypeError]. *)
Theorem is_ideal_spec (A : candidate S) :
  [/\ eq_self A -> is_ideal A = Ok true,
      forall B rows sm,
        ~~ eq_self A -> in_category A -> basis S = Ok B ->
        bracket_rows A B = Ok rows -> module S = Ok sm ->
        is_ideal A =
          Ok (FreeModule.is_submodule (FreeModule.row_space rows) sm)
    & forall B e,
        ~~ eq_self A -> in_category A -> basis S = Ok B ->
        bracket_rows A B = Raise e -> is_ValueError_or_TypeError e ->
        is_ideal A = Ok false].
Proof.
rewrite /is_ideal; split=> [-> // | B rows sm | B e].
  by move=> /negPf -> -> eq_B eq_rows eq_sm; rewrite eq_B /= eq_rows eq_sm.
by move=> /negPf -> -> eq_B eq_rows caught; rewrite eq_B /= eq_rows caught.
Qed.

(** C10.  [S[x]] raises a [NameError] for every [x] that is not a tuple
    of length two; a value can only come out of [S[(a, b)]], and it is the
    bracket of the two converted operands. *)
Theorem parent_getitem_spec (x : pyobj S) :
  [/\ (forall x0 x1, x <> PTuple [:: x0; x1]) ->
        __getitem__ x = Raise (NameError "sup"),
      forall X, __getitem__ x = Ok X ->
        exists x0 x1 X0 X1,
          [/\ x = PTuple [:: x0; x1],
              _element_constructor_ x0 = Ok X0,
              _element_constructor_ x1 = Ok X1
            & Element._bracket_ X0 X1 = Ok X]
    & forall x0 x1 : pyobj S,
        __getitem__ (PTuple [:: x0; x1]) =
          (X0 <- _element_constructor_ x0 ;;
           X1 <- _element_constructor_ x1 ;;
           Element._bracket_ X0 X1)].
Proof.
split=> //.
  by case: x => // - [|x0 [|x1 [|x2 l]]] // /(_ x0 x1).
case: x => // - [|x0 [|x1 [|x2 l]]] //= X.
case eq0: (_element_constructor_ x0) => [X0||] //=.
case eq1: (_element_constructor_ x1) => [X1||] //= eqX.
by exists x0, x1, X0, X1.
Qed.

(** C8 (amended).  [X.to_vector()] is the coordinate vector of the wrapped
    value in the ambient Lie algebra; the coordinates on the basis of the
    subalgebra are what [monomial_coefficients] computes from it with
    [coordinate_vector], keeping the non zero ones. *)
Theorem to_vector_is_ambient (X : element S) :
  Element.to_vector X = LieAlgebra.to_vector (lift X) /\
  forall sm v,
    module S = Ok sm ->
    FreeModule.coordinate_vector sm (Element.to_vector X) = Some v ->
    Element.monomial_coefficients X =
      Ok [seq (k, nth (FreeModule.zero M) v k)
         | k <- iota 0 (size v)
         & ~~ FreeModule.is_zero (nth (FreeModule.zero M) v k)].
Proof.
by split=> // sm v eq_sm eq_v; rewrite /Element.monomial_coefficients eq_sm /= eq_v.
Qed.

(** A key that [monomial_coefficients] does not hold makes [X[i]] raise:
    the handler of [__getitem__] is for [IndexError] only. *)
Lemma getitem_missing (X : element S) d (i : nat) :
  Element.monomial_coefficients X = Ok d ->
  (forall kc, kc \in [seq p.1 | p <- d] -> kc != i) ->
  Element.__getitem__ X i = Raise (KeyError i).
Proof.
rewrite /Element.__getitem__ => -> /= missing.
suff -> : Element.dict_getitem d i = Raise (KeyError i) by [].
elim: d missing => //= - [k c] d IH missing.
rewrite (negPf (missing k _)) ?mem_head //; apply: IH => kc kc_d.
by apply: missing; rewrite in_cons kc_d orbT.
Qed.

End GenericClaims.

Lemma filter_map_filter (T U : Type) (f : T -> U) (p : pred U) (s : seq T) :
  [seq y <- [seq f x | x <- s & p (f x)] | p y] = [seq f x | x <- s & p (f x)].
Proof. by elim: s => //= x s IH; case: ifP => //= ->; rewrite IH. Qed.

(** C7.  A subalgebra that is constructed with a subalgebra [S] of [L] as
    its ambient has [L] as its ambient and the lifted generators as its
    generators: it is the subalgebra that the lifted generators define in
    [L], with the same module, and so is every subalgebra that a chain of
    such constructions gives. *)
Theorem nested_subalgebra_flattens (S : Subalgebra) (gens2 : seq (element S)) :
  [/\ ambient (subalgebra (Sub S) gens2) = ambient S,
      subalgebra (Sub S) gens2 =
        subalgebra (Top (ambient S)) [seq lift g | g <- gens2],
      module (subalgebra (Sub S) gens2) =
        module (subalgebra (Top (ambient S)) [seq lift g | g <- gens2])
    & forall L T, nested L T ->
        ambient T = L /\
        exists gens : seq (LieAlgebra.elt L), T = subalgebra (Top L) gens].
Proof.
have eqTD : subalgebra (Sub S) gens2 =
            subalgebra (Top (ambient S)) [seq lift g | g <- gens2].
  by rewrite /subalgebra /= /ambient (filter_map (@lift S)).
split=> // [|L T'].
  by rewrite /subalgebra /= /ambient (filter_map (@lift S)).
move: L T' => L T'; elim=> [gens | S' gens' _ [eqL [gens0 eqS']]].
  split=> //; case: gens => [g | gs]; first by exists [:: g].
  by exists gs.
rewrite {}eqS' in gens' eqL *; split=> //.
pose nz (gs : seq (element (subalgebra (Top L) gens0))) :=
  [seq lift g | g <- [seq gen <- gs | ~~ LieAlgebra.is_zero (value gen)]].
have idem gs : subalgebra (Top L) (nz gs) = MkSubalgebra (nz gs).
  rewrite /subalgebra /= /nz; congr MkSubalgebra.
  exact: (@filter_map_filter _ (LieAlgebra.elt L)
            (@value (subalgebra (Top L) gens0))
            (fun x => ~~ @LieAlgebra.is_zero L x) gs).
by case: gens' => [g | gs]; [exists (nz [:: g]) | exists (nz gs)];
   rewrite idem.
Qed.

Section OrderIndependence.

Import GRing.Theory.
Local Open Scope ring_scope.
Import OverField.

Variables (F : fieldType) (n : nat) (sc : 'I_n -> 'I_n -> 'rV[F]_n).
Implicit Types (l gens : seq 'rV[F]_n) (v w : 'rV[F]_n).

Lemma span_eq gens1 gens2 :
  all (fun v => (v <= span gens2)%MS) gens1 ->
  all (fun v => (v <= span gens1)%MS) gens2 ->
  span gens1 = span gens2.
Proof.
move=> h12 h21; apply: span_ext => v.
by apply/idP/idP => /submx_trans; apply; rewrite span_sub.
Qed.

(** C6.  Two lists of generators that span the same vectors give the same
    module, hence the same basis matrix: the order of the generators and
    the redundant ones do not count. *)
Theorem generators_order_independent gens1 gens2 :
  (forall v, (v <= span gens1)%MS = (v <= span gens2)%MS) ->
  exists sm : 'M[F]_n,
    [/\ module (subalgebra sc gens1) = Ok sm,
        module (subalgebra sc gens2) = Ok sm,
        basis_matrix (subalgebra sc gens1) = Ok (basis_rows sm)
      & basis_matrix (subalgebra sc gens2) = Ok (basis_rows sm)].
Proof.
move=> /span_ext eq_span.
have [cl1 cl1_of [eq_sm1 _]] := module_subalgebra_over_field sc gens1.
have [cl2 cl2_of [eq_sm2 _]] := module_subalgebra_over_field sc gens2.
rewrite eq_span in cl1_of.
have eq_cl := closure_of_unique cl1_of cl2_of.
exists cl1; rewrite /basis_matrix eq_sm1 eq_sm2 /=.
by rewrite -eq_cl.
Qed.

(** The lists of the example: [[a, b]], [[b, a]] and [[a, b, a + b]]. *)
Lemma span_swap (a b : 'rV[F]_n) v :
  (v <= span [:: a; b])%MS = (v <= span [:: b; a])%MS.
Proof.
by rewrite (@span_eq [:: a; b] [:: b; a]) //= !mem_span ?inE ?eqxx ?orbT.
Qed.

Lemma span_redundant (a b : 'rV[F]_n) v :
  (v <= span [:: a; b])%MS = (v <= span [:: a; b; (a + b)%R])%MS.
Proof.
rewrite (@span_eq [:: a; b] [:: a; b; a + b]) //=.
  by rewrite !mem_span ?inE ?eqxx ?orbT.
by rewrite addmx_sub !mem_span ?inE ?eqxx ?orbT.
Qed.

End OrderIndependence.

Section FieldWitnesses.

Import GRing.Theory.
Local Open Scope ring_scope.
Import OverField.

Lemma generators_order_independent_witness :
  (forall v : 'rV[rat]_3,
     (v <= span [:: e3 rat 0; e3 rat 1])%MS
     = (v <= span [:: e3 rat 1; e3 rat 0])%MS) /\
  exists sm : 'M[rat]_3,
    [/\ module (subalgebra (heisenberg rat) [:: e3 rat 0; e3 rat 1]) = Ok sm,
        module (subalgebra (heisenberg rat) [:: e3 rat 1; e3 rat 0]) = Ok sm,
        basis_matrix (subalgebra (heisenberg rat) [:: e3 rat 0; e3 rat 1]) =
          Ok (basis_rows sm)
      & basis_matrix (subalgebra (heisenberg rat) [:: e3 rat 1; e3 rat 0]) =
          Ok (basis_rows sm)].
Proof.
split; first exact: span_swap.
exact: (generators_order_independent (heisenberg rat)
          (span_swap (e3 rat 0) (e3 rat 1))).
Defined.

End FieldWitnesses.

(** ** The integer examples *)

Section IntegerExamples.

Import OverIntegers Examples.
Local Open Scope Z_scope.

(** The examples of the docstrings. *)

Example basis_matrix_4X_Y :
  basis_matrix (subalgebra 3 scaled [:: [:: 4; 1; 0]; [:: 0; 1; 0]]) =
    Ok [:: [:: 4; 0; 0]; [:: 0; 1; 0]; [:: 0; 0; 12]].
Proof. by vm_compute. Qed.

Example module_S_XY :
  module S_XY = Ok [:: [:: 1; 0; 0]; [:: 0; 1; 0]; [:: 0; 0; 3]].
Proof. by vm_compute. Qed.

Example module_S_YZ : module S_YZ = Ok [:: [:: 0; 1; 0]; [:: 0; 0; 1]].
Proof. by vm_compute. Qed.

Example module_H_xy :
  module H_xy = Ok [:: [:: 1; 0; 0]; [:: 0; 1; 0]; [:: 0; 0; 1]].
Proof. by vm_compute. Qed.

Example monomial_coefficients_S_XY :
  Element.monomial_coefficients (MkElement S_XY [:: 0; 2; 9]) =
    Ok [:: (1%N, 2); (2%N, 3)].
Proof. by vm_compute. Qed.

Example monomial_coefficients_S_YZ :
  Element.monomial_coefficients (MkElement S_YZ [:: 0; 2; 9]) =
    Ok [:: (0%N, 2); (1%N, 9)].
Proof. by vm_compute. Qed.

Example to_vector_S_YZ :
  Element.to_vector (MkElement S_YZ [:: 0; 2; 9]) = [:: 0; 2; 9].
Proof. by []. Qed.

Example is_ideal_heisenberg :
  [/\ is_ideal (ambient_candidate (subalgebra 3 heisenberg [:: [:: 1; 0; 0]]))
        = Ok false,
      is_ideal (ambient_candidate H_xy) = Ok true
    & is_ideal (ambient_candidate
                  (subalgebra 3 heisenberg [:: [:: 0; 1; 0]; [:: 0; 0; 1]]))
        = Ok true].
Proof. by split; vm_compute. Qed.

Example generators_order_over_integers :
  let a := [:: 6; 4; 0] in
  let b := [:: 4; 6; 0] in
  let ab := [:: 10; 10; 0] in
  [/\ module (subalgebra 3 heisenberg [:: a; b]) =
        Ok [:: [:: 2; 8; 0]; [:: 0; 10; 0]; [:: 0; 0; 20]],
      module (subalgebra 3 heisenberg [:: b; a]) =
        Ok [:: [:: 2; 8; 0]; [:: 0; 10; 0]; [:: 0; 0; 20]]
    & module (subalgebra 3 heisenberg [:: a; b; ab]) =
        Ok [:: [:: 2; 8; 0]; [:: 0; 10; 0]; [:: 0; 0; 20]]].
Proof. by split; vm_compute. Qed.

Example closure_stalled :
  closure stalled =
    Ok ([:: [:: 1; 0; 0; 0]; [:: 0; 1; 0; 0]; [:: 0; 0; 1; 0]; [:: 0; 0; 0; 2]],
        1%N).
Proof. by vm_compute. Qed.

Example module_stalled :
  module stalled =
    Ok [:: [:: 1; 0; 0; 0]; [:: 0; 1; 0; 0]; [:: 0; 0; 1; 0]; [:: 0; 0; 0; 2]].
Proof. by vm_compute. Qed.

(** C1 (the code departs from the claim).  Over the integers the loop of
    [basis] can leave too early.  For the generators [x, y, 2 z, 4 w] of
    the algebra with [[x, y] = z] and [[x, z] = w] the rank is [4] from the
    start: one pass adds [z] and [2 w], the rank does not grow, and the loop
    leaves with the module of basis [x, y, z, 2 w], which holds [x] and [z]
    but not their bracket [w]. *)
Theorem module_not_closed_over_integers :
  [/\ closure stalled =
        Ok ([:: [:: 1; 0; 0; 0]; [:: 0; 1; 0; 0]; [:: 0; 0; 1; 0];
                [:: 0; 0; 0; 2]], 1%N),
      __contains__ stalled [:: 1; 0; 0; 0] = Ok true,
      __contains__ stalled [:: 0; 0; 1; 0] = Ok true,
      bracket 4 engel [:: 1; 0; 0; 0] [:: 0; 0; 1; 0] = [:: 0; 0; 0; 1]
    & __contains__ stalled [:: 0; 0; 0; 1] = Ok false].
Proof. by split; vm_compute. Qed.

(** C3 (the code departs from the claim).  In the subalgebra above, [x]
    and [z] retract to elements, and the bracket of these two elements
    raises the [ValueError] of [retract]. *)
Theorem bracket_raises_over_integers :
  exists X Z' : element stalled,
    [/\ retract stalled [:: 1; 0; 0; 0] = Ok X,
        retract stalled [:: 0; 0; 1; 0] = Ok Z'
      & Element._bracket_ X Z' =
          Raise (ValueError_not_in (S := stalled) [:: 0; 0; 0; 1])].
Proof.
exists (MkElement stalled [:: 1; 0; 0; 0]), (MkElement stalled [:: 0; 0; 1; 0]).
split; try by apply: (retract_in module_stalled); vm_compute.
by apply: (retract_out module_stalled); vm_compute.
Qed.

(** C8 (the claim as stated fails).  In the subalgebra generated by [Y]
    and [Z], of dimension [2], the vector of [2 Y + 9 Z] is [(0, 2, 9)]. *)
Lemma to_vector_not_in_own_basis :
  ~ to_vector_in_own_basis (MkElement S_YZ [:: 0; 2; 9]).
Proof. by case=> sm []; rewrite module_S_YZ => - [<-]. Qed.

(** C9 (the code departs from the claim).  For [el = S(2*Y + 9*Z)] of the
    docstring, [el[1]] is [2] and [el[2]] is [9], but [el[0]], whose
    coefficient is zero, and [el[7]], which is out of range, raise
    [KeyError]. *)
Theorem getitem_raises_KeyError :
  [/\ retract H_xy [:: 0; 2; 9] = Ok (MkElement H_xy [:: 0; 2; 9]),
      Element.__getitem__ (MkElement H_xy [:: 0; 2; 9]) 1 = Ok 2,
      Element.__getitem__ (MkElement H_xy [:: 0; 2; 9]) 2 = Ok 9,
      Element.__getitem__ (MkElement H_xy [:: 0; 2; 9]) 0 = Raise (KeyError 0)
    & Element.__getitem__ (MkElement H_xy [:: 0; 2; 9]) 7 = Raise (KeyError 7)].
Proof.
by split; first exact: (retract_in module_H_xy); vm_compute.
Qed.

End IntegerExamples.

(** ** The claims at the examples *)

Section Witnesses.

Import OverIntegers Examples.
Local Open Scope Z_scope.

Lemma saturation_terminates_witness :
  dimension_bounded (LieAlgebra.module (_ambient stalled)) /\
  exists k : nat,
    [/\ (k <= LieAlgebra.dimension (_ambient stalled))%N,
        closure stalled = Ok (passes stalled (generated_submodule stalled) k, k),
        forall fuel, (LieAlgebra.dimension (_ambient stalled) <= fuel)%N ->
          saturate stalled fuel (generated_submodule stalled) 0 0 =
            Ok (passes stalled (generated_submodule stalled) k, k),
        forall i, (i < k)%N ->
          ((if i is i'.+1
            then FreeModule.dimension
                   (passes stalled (generated_submodule stalled) i')
            else 0)
           < FreeModule.dimension
               (passes stalled (generated_submodule stalled) i))%N
      & (FreeModule.dimension (passes stalled (generated_submodule stalled) k)
         <= (if k is k'.+1
             then FreeModule.dimension
                    (passes stalled (generated_submodule stalled) k')
             else 0))%N].
Proof.
have bounded : dimension_bounded (LieAlgebra.module (_ambient stalled)).
  exact (@hermite_bounded 4%N).
by split; last apply: (@saturation_terminates stalled bounded).
Defined.

Lemma retract_spec_witness :
  dimension_bounded (LieAlgebra.module (_ambient stalled)) /\
  exists sm,
    [/\ module stalled = Ok sm,
        FreeModule.mem (@LieAlgebra.to_vector (_ambient stalled)
                          [:: 0; 0; 0; 1]) sm = false ->
          retract stalled [:: 0; 0; 0; 1] =
            Raise (ValueError_not_in (S := stalled) [:: 0; 0; 0; 1]),
        FreeModule.mem (@LieAlgebra.to_vector (_ambient stalled)
                          [:: 0; 0; 0; 1]) sm = true ->
          exists2 X, retract stalled [:: 0; 0; 0; 1] = Ok X
                   & lift X = [:: 0; 0; 0; 1]
      & (exists e, retract stalled [:: 0; 0; 0; 1] = Raise e) <->
        FreeModule.mem (@LieAlgebra.to_vector (_ambient stalled)
                          [:: 0; 0; 0; 1]) sm = false].
Proof.
have bounded : dimension_bounded (LieAlgebra.module (_ambient stalled)).
  exact (@hermite_bounded 4%N).
by split; last apply: (@retract_spec stalled [:: 0; 0; 0; 1] bounded).
Defined.

Lemma is_ideal_spec_witness :
  [/\ is_ideal (same_candidate H_xy) = Ok true,
      is_ideal (foreign_candidate H_xy TypeError) = Ok false
    & is_ideal (ambient_candidate H_xy) =
        Ok (FreeModule.is_submodule
              (@FreeModule.row_space (LieAlgebra.module (_ambient H_xy))
                 [:: [:: 0; 0; 0]; [:: 0; 0; 1]; [:: 0; 0; 0];
                     [:: 0; 0; -1]; [:: 0; 0; 0]; [:: 0; 0; 0];
                     [:: 0; 0; 0]; [:: 0; 0; 0]; [:: 0; 0; 0]])
              [:: [:: 1; 0; 0]; [:: 0; 1; 0]; [:: 0; 0; 1]])].
Proof.
pose B := [seq MkElement H_xy v
          | v <- [:: [:: 1; 0; 0]; [:: 0; 1; 0]; [:: 0; 0; 1]]].
have eq_B : basis H_xy = Ok B.
  have eq_cl : closure H_xy =
      Ok ([:: [:: 1; 0; 0]; [:: 0; 1; 0]; [:: 0; 0; 1]], 2%N) by vm_compute.
  by rewrite /basis eq_cl.
split.
- by have [-> //] := is_ideal_spec (same_candidate H_xy).
- have [_ _ h] := is_ideal_spec (foreign_candidate H_xy TypeError).
  exact: (h B TypeError).
have [_ h _] := is_ideal_spec (ambient_candidate H_xy).
by apply: (h B).
Defined.

Lemma parent_getitem_spec_witness :
  __getitem__ (POther : pyobj H_xy) = Raise (NameError "sup") /\
  __getitem__ (PList [:: PAmbient (S := H_xy) [:: 1; 0; 0];
                         PAmbient (S := H_xy) [:: 0; 1; 0]])
    = Raise (NameError "sup").
Proof.
split.
  by have [-> //] := parent_getitem_spec (POther : pyobj H_xy).
by have [-> //] := parent_getitem_spec
     (PList [:: PAmbient (S := H_xy) [:: 1; 0; 0];
                PAmbient (S := H_xy) [:: 0; 1; 0]]).
Defined.

Lemma to_vector_is_ambient_witness :
  Element.to_vector (MkElement S_YZ [:: 0; 2; 9]) = [:: 0; 2; 9] /\
  Element.monomial_coefficients (MkElement S_YZ [:: 0; 2; 9]) =
    Ok [:: (0%N, 2); (1%N, 9)].
Proof.
have [eq_v h] := to_vector_is_ambient (MkElement S_YZ [:: 0; 2; 9]).
split; first exact: eq_v.
exact: (h _ [:: 2; 9] module_S_YZ).
Defined.

Lemma nested_subalgebra_flattens_witness :
  nested (algebra 4 engel) S_ZW /\ ambient S_ZW = algebra 4 engel.
Proof.
have nS2 : nested (algebra 4 engel) S_ZW.
  by apply: nested_sub; apply: (nested_top (L := algebra 4 engel)).
split; first exact: nS2.
have [_ _ _ h] := nested_subalgebra_flattens
                    [:: MkElement S_YZW [:: 0; 0; 1; 0]].
by have [] := h _ _ nS2.
Defined.

End Witnesses.

(** * Further properties of the code *)

(** ** Construction, conversion and element access, for any free module *)

Lemma dict_getitem_filter (A : Type) (f : nat -> A) (p : pred nat)
    (ks : seq nat) (i : nat) :
  Element.dict_getitem [seq (k, f k) | k <- ks & p k] i =
    if (i \in ks) && p i then Ok (f i) else Raise (KeyError i).
Proof.
elim: ks => //= k ks IH; rewrite in_cons.
case pk: (p k) => /=; last first.
  by rewrite IH; case: eqP => [->|] //=; rewrite pk andbF.
by rewrite eq_sym; case: eqP => [->|_] //=; rewrite pk.
Qed.


Section GenericExtras.

Variable S : Subalgebra.

Let L := _ambient S.
Let M := LieAlgebra.module L.

Lemma saturate_stop fuel (sm : submodule_of L) d k :
  FreeModule.dimension sm <= d -> saturate S fuel sm d k = Ok (sm, k).
Proof. by case: fuel => [|fuel] /=; rewrite ltnNge => ->. Qed.

(** X2.  [X[i]] is the coordinate [i] of [X] on the basis of the
    subalgebra when this coordinate exists and is not zero, and raises
    [KeyError] otherwise: the zero of the base ring is never returned. *)
Theorem element_getitem_spec (X : element S) sm v (i : nat) :
  module S = Ok sm ->
  FreeModule.coordinate_vector sm (Element.to_vector X) = Some v ->
  Element.__getitem__ X i =
    if (i < size v) && ~~ FreeModule.is_zero (nth (FreeModule.zero M) v i)
    then Ok (nth (FreeModule.zero M) v i)
    else Raise (KeyError i).
Proof.
move=> eq_sm eq_v.
rewrite /Element.__getitem__ /Element.monomial_coefficients eq_sm /= eq_v /=.
rewrite (dict_getitem_filter (fun k => nth (FreeModule.zero M) v k)
           (fun k => ~~ FreeModule.is_zero (nth (FreeModule.zero M) v k))).
by rewrite mem_iota add0n /=; case: ifP.
Qed.


End GenericExtras.

(** ** Subalgebras over a field *)

Section FieldExtras.

Import GRing.Theory.
Local Open Scope ring_scope.
Import OverField.

Variables (F : fieldType) (n : nat) (sc : 'I_n -> 'I_n -> 'rV[F]_n).
Implicit Types (l gens : seq 'rV[F]_n) (v w x y z : 'rV[F]_n).

Local Notation bracket_closed := (bracket_closed sc).
Local Notation direct gens := (MkSubalgebra (_ambient := algebra sc) gens).
Local Notation subalgebra := (subalgebra sc).

Lemma contains_over_field gens (sm : 'M[F]_n) x :
  module (subalgebra gens) = Ok sm ->
  __contains__ (subalgebra gens) x = Ok (x <= sm)%MS.
Proof. by rewrite /__contains__ => ->. Qed.

Lemma retract_over_field gens (sm : 'M[F]_n) x :
  module (subalgebra gens) = Ok sm ->
  retract (subalgebra gens) x =
    if (x <= sm)%MS then Ok (MkElement (subalgebra gens) x)
    else Raise (ValueError_not_in (S := subalgebra gens) x).
Proof.
move=> eq_sm; rewrite /retract (contains_over_field _ eq_sm) /=.
by case: (x <= sm)%MS.
Qed.

Lemma contains_generator_over_field gens g :
  g \in gens -> __contains__ (subalgebra gens) g = Ok true.
Proof.
have [sm [eq_sm gens_sm _ _ _]] := module_minimal_over_field sc gens.
by move/gens_sm; rewrite (contains_over_field _ eq_sm) => ->.
Qed.

Lemma contains_monotone_over_field gens1 gens2 :
  (forall g, g \in gens1 -> __contains__ (subalgebra gens2) g = Ok true) ->
  forall x, __contains__ (subalgebra gens1) x = Ok true ->
            __contains__ (subalgebra gens2) x = Ok true.
Proof.
have [sm1 [eq1 _ _ min1 _]] := module_minimal_over_field sc gens1.
have [sm2 [eq2 _ cl2 _ _]] := module_minimal_over_field sc gens2.
move=> gens12 x; rewrite !(contains_over_field _ eq1, contains_over_field _ eq2).
move=> [x_sm1]; congr Ok; apply: submx_trans x_sm1 _; apply: min1 => // g.
by move/gens12; rewrite (contains_over_field _ eq2) => - [].
Qed.

(** X4.  Over a field the module of a subalgebra is the least submodule
    that contains the generators and is closed under the bracket; without
    generators it is the zero submodule. *)
Theorem module_is_least_over_field gens :
  exists sm : 'M[F]_n,
    [/\ module (subalgebra gens) = Ok sm,
        forall g, g \in gens -> (g <= sm)%MS,
        bracket_closed sm,
        forall k (W : 'M[F]_(k, n)),
          bracket_closed W -> (forall g, g \in gens -> (g <= W)%MS) ->
          (sm <= W)%MS
      & gens = [::] -> sm = 0].
Proof. exact: module_minimal_over_field. Qed.

(** X5.  Over a field the bracket of two elements whose values are in the
    module never raises: it wraps the bracket of the two values. *)
Theorem bracket_total_over_field gens (X Y : element (subalgebra gens)) :
  exists sm : 'M[F]_n,
    module (subalgebra gens) = Ok sm /\
    ((value X <= sm)%MS -> (value Y <= sm)%MS ->
     Element._bracket_ X Y =
       Ok (MkElement (subalgebra gens) (bracket sc (value X) (value Y)))).
Proof.
have [sm [eq_sm _ _ _ _]] := module_minimal_over_field sc gens.
by exists sm; split=> // X_sm Y_sm; apply: bracket_over_field eq_sm X_sm Y_sm.
Qed.

(** X6.  Over a field [x in S] never raises and defines a subalgebra: the
    generators and zero are in [S], and [S] is closed under the sum, the
    product by a scalar and the bracket. *)
Theorem contains_is_subalgebra_over_field gens :
  let inS x := __contains__ (subalgebra gens) x = Ok true in
  [/\ forall x, exists b, __contains__ (subalgebra gens) x = Ok b,
      forall g, g \in gens -> inS g,
      inS 0,
      forall a x y, inS x -> inS y -> inS (a *: x + y)
    & forall x y, inS x -> inS y -> inS (bracket sc x y)].
Proof.
have [sm [eq_sm gens_sm cl_sm _ _]] := module_minimal_over_field sc gens.
have inE x : (__contains__ (subalgebra gens) x = Ok true) <-> (x <= sm)%MS.
  by rewrite (contains_over_field _ eq_sm); split=> [[->] | ->].
split=> [x | g /gens_sm /inE | | a x y /inE x_sm /inE y_sm | x y /inE x_sm /inE y_sm] //.
- by rewrite (contains_over_field _ eq_sm); eexists.
- by apply/inE; apply: sub0mx.
- by apply/inE; rewrite addmx_sub ?scalemx_sub.
- by apply/inE; apply: cl_sm.
Qed.

(** X7.  A list of zero generators gives the zero subalgebra: the loop of
    [basis] is not entered, the basis is empty, the module is zero and
    only zero is in the subalgebra. *)
Theorem zero_subalgebra_over_field gens :
  all (fun g => g == 0) gens ->
  [/\ closure (subalgebra gens) = Ok (0, 0%N),
      basis (subalgebra gens) = Ok [::],
      module (subalgebra gens) = Ok 0
    & forall x, __contains__ (subalgebra gens) x = Ok (x == 0)].
Proof.
move=> gens0.
have nz0 : nonzero gens = [::].
  apply/eqP; rewrite /nonzero -[_ == _]negbK -has_filter -all_predC.
  by apply: sub_all gens0 => g /= ->.
have eq_cl : closure (subalgebra gens) = Ok (0, 0%N).
  rewrite /closure /generated_submodule /lie_algebra_generators /=.
  rewrite -/(nonzero gens) nz0 /= span_nil.
  have rk0 : (\rank (0%R : 'M[F]_n) <= 0)%N by rewrite mxrank0.
  exact: (@saturate_stop (subalgebra gens) _ (0 : 'M[F]_n) 0 0 rk0).
have eq_B : basis (subalgebra gens) = Ok [::].
  rewrite /basis eq_cl /= /basis_rows /rows.
  by rewrite (_ : enum _ = [::]) //; apply: size0nil; rewrite size_enum_ord mxrank0.
have eq_sm : module (subalgebra gens) = Ok 0.
  by rewrite /module eq_B /= span_nil.
by split=> // x; rewrite (contains_over_field _ eq_sm) submx0.
Qed.

End FieldExtras.

Section FieldExtras2.

Import GRing.Theory.
Local Open Scope ring_scope.
Import OverField.

Variables (F : fieldType) (n : nat) (sc : 'I_n -> 'I_n -> 'rV[F]_n).
Implicit Types (l gens : seq 'rV[F]_n) (v w x y z : 'rV[F]_n).

Local Notation bracket_closed := (bracket_closed sc).
Local Notation subalgebra := (subalgebra sc).

Lemma closure_of_closed (sm : 'M[F]_n) :
  <<sm>>%MS = sm -> bracket_closed sm -> closure_of sc sm sm.
Proof. by move=> can_sm cl_sm; split. Qed.

(** X8.  Over a field [basis()] has as many elements as the dimension of
    the module; their vectors are the rows of [basis_matrix()], they are
    linearly independent, and each of them retracts to itself. *)
Theorem basis_spec_over_field gens :
  exists (sm : 'M[F]_n) (B : seq (element (subalgebra gens))),
    [/\ module (subalgebra gens) = Ok sm /\ basis (subalgebra gens) = Ok B,
        size B = \rank sm,
        basis_matrix (subalgebra gens) = Ok [seq Element.to_vector X | X <- B],
        row_free (rows_mx [seq Element.to_vector X | X <- B])
      & [seq retract (subalgebra gens) (lift X) | X <- B] =
        [seq Ok X | X <- B]].
Proof.
have [cl _ [eq_sm eq_B]] := module_subalgebra_over_field sc gens.
exists cl; eexists; split; first by split; [exact: eq_sm | exact: eq_B].
- by rewrite size_map size_basis_rows.
- by rewrite /basis_matrix eq_sm /= -map_comp map_id.
- rewrite -map_comp map_id /row_free basis_rows_eq.
  by rewrite size_basis_rows.
have := @basis_rows_sub _ _ cl; move: (basis_rows cl) => rs rs_sub.
rewrite -!map_comp; apply/eq_in_map => v /rs_sub v_cl /=.
by rewrite (retract_over_field _ eq_sm) v_cl.
Qed.

(** X9.  Over a field the subalgebra that the basis of a subalgebra
    generates has the module of this subalgebra. *)
Theorem subalgebra_of_basis_over_field gens :
  exists (sm : 'M[F]_n) (B : seq (element (subalgebra gens))),
    [/\ basis (subalgebra gens) = Ok B,
        module (subalgebra gens) = Ok sm
      & module (subalgebra [seq lift X | X <- B]) = Ok sm].
Proof.
have [cl [can_cl cl_cl _ _] [eq_sm eq_B]] :=
  module_subalgebra_over_field sc gens.
exists cl; eexists; split; [exact: eq_B | exact: eq_sm |].
rewrite -map_comp map_id.
have [cl' cl'_of [-> _]] := module_subalgebra_over_field sc (basis_rows cl).
rewrite span_basis_rows can_cl in cl'_of.
by rewrite (closure_of_unique cl'_of (closure_of_closed can_cl cl_cl)).
Qed.

(** X10.  Over a field a subalgebra whose generators are in a second
    subalgebra is contained in it. *)
Theorem subalgebra_monotone_over_field gens1 gens2 :
  (forall g, g \in gens1 -> __contains__ (subalgebra gens2) g = Ok true) ->
  forall x, __contains__ (subalgebra gens1) x = Ok true ->
            __contains__ (subalgebra gens2) x = Ok true.
Proof. exact: contains_monotone_over_field. Qed.

(** X18.  Over a field a subalgebra that is constructed with a subalgebra
    [S] as its ambient, from elements of [S], is contained in [S]. *)
Theorem nested_subalgebra_contained_over_field gens
    (gens2 : seq (element (subalgebra gens))) :
  (forall g, g \in [seq lift X | X <- gens2] ->
     __contains__ (subalgebra gens) g = Ok true) ->
  forall x,
    __contains__ (__classcall_private__ (Sub (subalgebra gens))
                    (@Many (Sub (subalgebra gens)) gens2)) x = Ok true ->
    __contains__ (subalgebra gens) x = Ok true.
Proof.
move=> gens2_S x.
have eq_l :
    [seq lift X
    | X <- [seq X <- gens2
           | ~~ @elt_is_zero (Sub (subalgebra gens)) X]] =
    nonzero [seq lift X | X <- gens2].
  by rewrite /nonzero filter_map.
rewrite /__classcall_private__ eq_l.
exact: (contains_monotone_over_field gens2_S).
Qed.

(** X11.  Over a field the bracket syntax [S[x, y]] on two elements of
    the ambient converts the operands from left to right: it raises the
    [ValueError] of the first operand that is not in the subalgebra, and
    otherwise wraps the bracket [[x, y]]; the list form [S([x, y])] does
    the same. *)
Theorem bracket_syntax_over_field gens x y :
  exists sm : 'M[F]_n,
    [/\ module (subalgebra gens) = Ok sm,
        __getitem__ (PTuple [:: PAmbient (S := subalgebra gens) x;
                                PAmbient (S := subalgebra gens) y]) =
          if ~~ (x <= sm)%MS
          then Raise (ValueError_not_in (S := subalgebra gens) x)
          else if ~~ (y <= sm)%MS
          then Raise (ValueError_not_in (S := subalgebra gens) y)
          else Ok (MkElement (subalgebra gens) (bracket sc x y))
      & _element_constructor_
          (PList [:: PAmbient (S := subalgebra gens) x;
                     PAmbient (S := subalgebra gens) y]) =
        __getitem__ (PTuple [:: PAmbient (S := subalgebra gens) x;
                                PAmbient (S := subalgebra gens) y])].
Proof.
have [sm [eq_sm _ cl_sm _ _]] := module_minimal_over_field sc gens.
exists sm; split=> //=.
rewrite !(retract_over_field _ eq_sm).
case x_sm: (x <= sm)%MS => //=; case y_sm: (y <= sm)%MS => //=.
by rewrite /Element._bracket_ /= (retract_over_field _ eq_sm) cl_sm.
Qed.


(** X13.  [_an_element_] is the first non zero generator, which is in
    the subalgebra over a field; in the zero subalgebra, which has no
    generator, it raises [IndexError]. *)
Theorem an_element_over_field gens :
  match nonzero gens with
  | [::] => _an_element_ (subalgebra gens) = Raise IndexError
  | g :: _ =>
      _an_element_ (subalgebra gens) = Ok (MkElement (subalgebra gens) g) /\
      retract (subalgebra gens) g = Ok (MkElement (subalgebra gens) g)
  end.
Proof.
rewrite /_an_element_ /lie_algebra_generators /= -/(nonzero gens).
case eq_nz: (nonzero gens) => [|g gs] //; split=> //.
have [sm [eq_sm gens_sm _ _ _]] := module_minimal_over_field sc gens.
rewrite (retract_over_field _ eq_sm) gens_sm //.
have: g \in nonzero gens by rewrite eq_nz mem_head.
by rewrite mem_filter => /andP [].
Qed.

(** X14.  Generators whose span is closed under the bracket already: the
    module is their span and the loop body of [basis] runs at most
    once. *)
Theorem closed_generators_over_field gens :
  bracket_closed (span gens) ->
  exists k, [/\ closure (subalgebra gens) = Ok (span gens, k),
                (k <= 1)%N & module (subalgebra gens) = Ok (span gens)].
Proof.
move=> cl_gens.
have cl_nz : closure_of sc (span (nonzero gens)) (span gens).
  by rewrite span_nonzero; apply: closure_of_closed => //; apply: span_id.
set S := subalgebra gens.
pose sm0 : 'M[F]_n := span (nonzero gens).
have eq_gen : generated_submodule S = sm0.
  by rewrite /generated_submodule /lie_algebra_generators /= map_id.
have eq_sm0 : sm0 = span gens by apply: span_nonzero.
have [rk0 | rk_pos] := posnP (\rank sm0).
  have eq_cl : closure S = Ok (span gens, 0%N).
    rewrite /closure eq_gen -eq_sm0.
    by apply: (@saturate_stop S _ sm0 0 0); rewrite /= rk0.
  exists 0%N; split=> //.
  by apply: (module_over_field (gens := nonzero gens) eq_cl); apply: span_id.
have cl_sm0 : bracket_closed sm0 by rewrite eq_sm0.
have le_pass : (bracket_pass S sm0 <= sm0)%MS.
  exact: (@pass_sub _ _ sc (nonzero gens) _ sm0 sm0 cl_sm0 (submx_refl _)).
have eq_pass : bracket_pass S sm0 = span gens.
  rewrite -eq_sm0 -(pass_canonical sc (nonzero gens) sm0) -[RHS]span_id.
  apply/genmxP; rewrite le_pass /=.
  exact: (sub_pass sc (nonzero gens) sm0).
have eq_cl : closure S = Ok (span gens, 1%N).
  rewrite /closure eq_gen.
  have n_pos : (0 < LieAlgebra.dimension (_ambient S))%N.
    exact: leq_trans rk_pos (rank_leq_col sm0).
  case: (LieAlgebra.dimension _) n_pos => // fuel _ /=.
  rewrite rk_pos -eq_pass.
  apply: (@saturate_stop S fuel (bracket_pass S sm0) (\rank sm0) 1).
  exact: mxrankS le_pass.
exists 1%N; split=> //.
by apply: (module_over_field (gens := nonzero gens) eq_cl); apply: span_id.
Qed.

(** X15.  Over a field the subalgebra that the basis of the ambient
    generates is the ambient: every element is in it. *)
Theorem subalgebra_of_ambient_basis_over_field :
  module (subalgebra (LieAlgebra.basis (algebra sc))) = Ok 1%:M /\
  forall x, __contains__ (subalgebra (LieAlgebra.basis (algebra sc))) x
            = Ok true.
Proof.
have [sm [eq_sm gens_sm _ _ _]] :=
  module_minimal_over_field sc (LieAlgebra.basis (algebra sc)).
have [cl [can_cl _ _ _] [eq_cl _]] :=
  module_subalgebra_over_field sc (LieAlgebra.basis (algebra sc)).
have full : (1%:M <= sm)%MS.
  apply/row_subP => i; rewrite row1; apply: gens_sm.
  by apply: map_f; rewrite mem_enum.
have eq1 : sm = 1%:M.
  have eq_sm_cl : sm = cl by move: eq_sm; rewrite eq_cl => - [].
  rewrite eq_sm_cl -can_cl -(genmx1 F n); apply/genmxP.
  by rewrite submx1 -eq_sm_cl.
rewrite eq1 in eq_sm; split=> // x.
by rewrite (contains_over_field _ eq_sm) submx1.
Qed.

End FieldExtras2.

(** ** Coordinates on the basis of the subalgebra, over a field *)

Section FieldExtras3.

Import GRing.Theory.
Local Open Scope ring_scope.
Import OverField.

Variables (F : fieldType) (n : nat) (sc : 'I_n -> 'I_n -> 'rV[F]_n).
Implicit Types (l gens : seq 'rV[F]_n) (v w x y z : 'rV[F]_n).

Local Notation subalgebra := (subalgebra sc).

Lemma nth_entries k (u : 'rV[F]_k) (i : 'I_k) : nth 0 (entries u) i = u 0 i.
Proof. by rewrite /entries (nth_map i) ?size_enum_ord // nth_ord_enum. Qed.

Lemma nth_basis_rows (A : 'M[F]_n) (i : 'I_(\rank A)) :
  nth 0 (basis_rows A) i = row i (row_base A).
Proof. by rewrite /basis_rows /rows (nth_map i) ?size_enum_ord // nth_ord_enum. Qed.

Lemma sum_coordinates (A : 'M[F]_n) (u : 'rV[F]_(\rank A)) :
  \sum_(k <- iota 0 (\rank A) | nth 0 (entries u) k != 0)
     nth 0 (entries u) k *: nth 0 (basis_rows A) k = u *m row_base A.
Proof.
rewrite big_mkcond /= -{1}(subn0 (\rank A)) -/(index_iota 0 (\rank A)).
rewrite big_mkord mulmx_sum_row; apply: eq_bigr => i _.
rewrite nth_entries nth_basis_rows.
by case: eqP => [-> | //]; rewrite scale0r.
Qed.

(** X16.  Over a field [monomial_coefficients] decodes an element on the
    basis of the subalgebra: the keys increase and index rows of
    [basis_matrix()], no value is zero, and the combination of these rows
    with the values is the element.  An element built outside of the
    module raises [ArithmeticError]. *)
Theorem monomial_coefficients_over_field gens (X : element (subalgebra gens)) :
  exists (sm : 'M[F]_n) (B : seq 'rV[F]_n),
    [/\ module (subalgebra gens) = Ok sm,
        basis_matrix (subalgebra gens) = Ok B
      & if (value X <= sm)%MS then
          exists2 d, Element.monomial_coefficients X = Ok d
            & [/\ sorted ltn [seq p.1 | p <- d],
                  all (fun p => (p.1 < size B)%N && (p.2 != 0)) d
                & \sum_(p <- d) p.2 *: nth 0 B p.1 = value X]
        else Element.monomial_coefficients X = Raise ArithmeticError].
Proof.
have [sm [eq_sm _ _ _ _]] := module_minimal_over_field sc gens.
exists sm, (basis_rows sm); split=> //; first by rewrite /basis_matrix eq_sm.
rewrite /Element.monomial_coefficients eq_sm /= /Element.to_vector /=.
rewrite /coordinates; case X_sm: (value X <= sm)%MS => //.
set u := value X *m pinvmx (row_base sm).
eexists; [reflexivity | split].
- rewrite -map_comp map_id_in //.
  by apply: sorted_filter (iota_ltn_sorted 0 _); apply: ltn_trans.
- rewrite all_map; apply/allP => k; rewrite mem_filter mem_iota /= add0n.
  by rewrite size_entries size_basis_rows => /andP [-> ->].
rewrite big_map big_filter /= size_entries sum_coordinates.
by rewrite mulmxKpV // eq_row_base.
Qed.

(** X17.  Over a field [zero()] is an element of the subalgebra, its
    dictionary of monomial coefficients is empty, and indexing it raises
    [KeyError] at every index. *)
Theorem zero_over_field gens :
  [/\ retract (subalgebra gens) (lift (zero (subalgebra gens))) =
        Ok (zero (subalgebra gens)),
      Element.monomial_coefficients (zero (subalgebra gens)) = Ok [::]
    & forall i : nat,
        Element.__getitem__ (zero (subalgebra gens)) i = Raise (KeyError i)].
Proof.
have [sm [eq_sm _ _ _ _]] := module_minimal_over_field sc gens.
have eq_d : Element.monomial_coefficients (zero (subalgebra gens)) = Ok [::].
  rewrite /Element.monomial_coefficients eq_sm /= /Element.to_vector /=.
  rewrite /coordinates sub0mx mul0mx size_entries; congr Ok.
  rewrite (_ : [seq k <- _ | _] = [::]) //.
  apply/eqP; rewrite -[_ == _]negbK -has_filter -all_predC.
  apply/allP => k; rewrite mem_iota /= add0n negbK => k_rk.
  by rewrite (nth_entries _ (Ordinal k_rk)) mxE.
split=> // [| i]; first by rewrite (retract_over_field _ eq_sm) /= sub0mx.
by rewrite /Element.__getitem__ eq_d.
Qed.

End FieldExtras3.

(** ** The further properties at examples *)

Section IntegerInstances.

Import OverIntegers Examples.
Local Open Scope Z_scope.


Lemma element_getitem_spec_witness :
  [/\ module S_YZ = Ok [:: [:: 0; 1; 0]; [:: 0; 0; 1]],
      FreeModule.coordinate_vector
        (o := LieAlgebra.module (_ambient S_YZ))
        [:: [:: 0; 1; 0]; [:: 0; 0; 1]]
        (Element.to_vector (MkElement S_YZ [:: 0; 2; 9])) = Some [:: 2; 9],
      Element.__getitem__ (MkElement S_YZ [:: 0; 2; 9]) 1 = Ok 9
    & Element.__getitem__ (MkElement S_YZ [:: 0; 2; 9]) 2 =
        Raise (KeyError 2)].
Proof.
have eq_v : FreeModule.coordinate_vector
    (o := LieAlgebra.module (_ambient S_YZ))
    [:: [:: 0; 1; 0]; [:: 0; 0; 1]]
    (Element.to_vector (MkElement S_YZ [:: 0; 2; 9])) = Some [:: 2; 9].
  reflexivity.
split; [exact: module_S_YZ | exact: eq_v | |].
  exact: (element_getitem_spec 1 module_S_YZ eq_v).
exact: (element_getitem_spec 2 module_S_YZ eq_v).
Defined.


End IntegerInstances.

Section FieldInstances.

Import GRing.Theory.
Local Open Scope ring_scope.
Import OverField.

Lemma abelian_closed (F : fieldType) k (W : 'M[F]_(k, 3)) :
  bracket_closed (@abelian F) W.
Proof.
move=> v w _ _; rewrite /bracket big1 ?sub0mx // => i _.
by rewrite big1 // => j _; rewrite scaler0.
Qed.

Lemma zero_subalgebra_over_field_witness :
  all (fun g : 'rV[rat]_3 => g == 0) [:: 0; 0] /\
  [/\ closure (subalgebra (heisenberg rat) [:: 0; 0]) = Ok (0, 0%N),
      basis (subalgebra (heisenberg rat) [:: 0; 0]) = Ok [::],
      module (subalgebra (heisenberg rat) [:: 0; 0]) = Ok 0
    & forall x, __contains__ (subalgebra (heisenberg rat) [:: 0; 0]) x =
                Ok (x == 0)].
Proof.
have zeros : all (fun g : 'rV[rat]_3 => g == 0) [:: 0; 0] by rewrite /= eqxx.
split; first exact: zeros.
exact: (zero_subalgebra_over_field (heisenberg rat) zeros).
Defined.

Lemma subalgebra_monotone_over_field_witness :
  (forall g, g \in [:: e3 rat 0] ->
     __contains__ (subalgebra (heisenberg rat) [:: e3 rat 0; e3 rat 1]) g =
       Ok true) /\
  (forall x,
     __contains__ (subalgebra (heisenberg rat) [:: e3 rat 0]) x = Ok true ->
     __contains__ (subalgebra (heisenberg rat) [:: e3 rat 0; e3 rat 1]) x =
       Ok true).
Proof.
have gens12 g : g \in [:: e3 rat 0] ->
    __contains__ (subalgebra (heisenberg rat) [:: e3 rat 0; e3 rat 1]) g =
      Ok true.
  rewrite inE => /eqP ->.
  by apply: contains_generator_over_field; rewrite inE eqxx.
split; first exact: gens12.
exact: (@subalgebra_monotone_over_field _ _ (heisenberg rat) [:: e3 rat 0]
          [:: e3 rat 0; e3 rat 1] gens12).
Defined.

Lemma nested_subalgebra_contained_over_field_witness :
  (forall g,
     g \in [seq lift X
           | X <- [:: MkElement
                        (subalgebra (heisenberg rat) [:: e3 rat 0; e3 rat 1])
                        (e3 rat 0)]] ->
     __contains__ (subalgebra (heisenberg rat) [:: e3 rat 0; e3 rat 1]) g =
       Ok true) /\
  (forall x,
     __contains__
       (__classcall_private__
          (Sub (subalgebra (heisenberg rat) [:: e3 rat 0; e3 rat 1]))
          (@Many (Sub (subalgebra (heisenberg rat) [:: e3 rat 0; e3 rat 1]))
                [:: MkElement
                      (subalgebra (heisenberg rat) [:: e3 rat 0; e3 rat 1])
                      (e3 rat 0)])) x = Ok true ->
     __contains__ (subalgebra (heisenberg rat) [:: e3 rat 0; e3 rat 1]) x =
       Ok true).
Proof.
have gens2_S g :
    g \in [seq lift X
          | X <- [:: MkElement
                       (subalgebra (heisenberg rat) [:: e3 rat 0; e3 rat 1])
                       (e3 rat 0)]] ->
    __contains__ (subalgebra (heisenberg rat) [:: e3 rat 0; e3 rat 1]) g =
      Ok true.
  rewrite inE => /eqP ->.
  by apply: contains_generator_over_field; rewrite inE eqxx.
split; first exact: gens2_S.
exact: (nested_subalgebra_contained_over_field gens2_S).
Defined.

Lemma closed_generators_over_field_witness :
  bracket_closed (@abelian rat) (span [:: e3 rat 0; e3 rat 1]) /\
  exists k,
    [/\ closure (subalgebra (@abelian rat) [:: e3 rat 0; e3 rat 1]) =
          Ok (span [:: e3 rat 0; e3 rat 1], k),
        (k <= 1)%N
      & module (subalgebra (@abelian rat) [:: e3 rat 0; e3 rat 1]) =
          Ok (span [:: e3 rat 0; e3 rat 1])].
Proof.
have closed : bracket_closed (@abelian rat) (span [:: e3 rat 0; e3 rat 1]).
  exact: abelian_closed.
split; first exact: closed.
exact: (closed_generators_over_field closed).
Defined.

End FieldInstances.
